(** * cinefil-poster-generator: the image composition pipeline

    A shallow embedding of [image_utils.py] and [main.py]: bounding-box
    geometry, adaptive font sizing, cover resize, the poster compositor and
    the orchestration loop, with the properties the specification states
    about them. *)

From Stdlib Require Import ZArith Bool List.
From Stdlib Require Import SpecFloat.
From stdpp Require Import base option list gmap strings pretty.
From Equations Require Import Equations.

Local Open Scope Z_scope.

(** ** Python floats

    CPython's [float] is IEEE 754 binary64.  The operations the source uses
    are written over [spec_float] at precision 53 and maximal exponent 1024,
    so that they evaluate to the bit patterns the interpreter produces. *)

Module PyFloat.

Definition prec : Z := 53.
Definition emax : Z := 1024.

Definition float := spec_float.

(** [float(n)], rounding to nearest even. *)
Definition of_int (n : Z) : float := binary_normalize prec emax n 0 false.

Definition add (x y : float) : float := SFadd prec emax x y.
Definition sub (x y : float) : float := SFsub prec emax x y.
Definition mul (x y : float) : float := SFmul prec emax x y.
Definition div (x y : float) : float := SFdiv prec emax x y.

Definition ltb (x y : float) : bool := SFltb x y.
Definition gtb (x y : float) : bool := SFltb y x.

Definition is_zero (x : float) : bool :=
  match x with S754_zero _ => true | _ => false end.

Definition sign (x : float) : bool :=
  match x with
  | S754_zero s | S754_infinity s | S754_finite s _ _ => s
  | S754_nan => false
  end.

(** [math.copysign(0.0, y)]. *)
Definition copysign_zero (y : float) : float := S754_zero (sign y).

(** The integer part of a finite float, rounded toward zero. *)
Definition trunc_Z (x : float) : option Z :=
  match x with
  | S754_zero _ => Some 0
  | S754_finite s m e =>
      let a := if 0 <=? e then Z.shiftl (Zpos m) e
               else Z.shiftr (Zpos m) (- e) in
      Some (if s then - a else a)
  | S754_infinity _ | S754_nan => None
  end.

(** [math.floor] restricted to its float result: the largest integral
    float not above [x]. *)
Definition floor (x : float) : float :=
  match x with
  | S754_finite s m e =>
      if 0 <=? e then x
      else
        let q := Z.shiftr (Zpos m) (- e) in
        let exact := Z.eqb (Z.shiftl q (- e)) (Zpos m) in
        let n := if s then (if exact then - q else - q - 1) else q in
        binary_normalize prec emax n 0 s
  | _ => x
  end.

(** C's [fmod]: the remainder of the division truncated toward zero,
    which is exact and carries the sign of the dividend. *)
Definition fmod (x y : float) : float :=
  match x, y with
  | S754_nan, _ | _, S754_nan => S754_nan
  | S754_infinity _, _ => S754_nan
  | _, S754_zero _ => S754_nan
  | S754_zero _, _ => x
  | S754_finite _ _ _, S754_infinity _ => x
  | S754_finite sx mx ex, S754_finite _ my ey =>
      let e := Z.min ex ey in
      let X := Z.shiftl (Zpos mx) (ex - e) in
      let Y := Z.shiftl (Zpos my) (ey - e) in
      let r := X mod Y in
      binary_normalize prec emax (if sx then - r else r) e sx
  end.

(** [float(n)] as the interpreter does it: an integer too large for a
    double is refused. *)
Definition of_int_checked (n : Z) : option float :=
  match of_int n with
  | S754_infinity _ | S754_nan => None
  | x => Some x
  end.

(** An integer as an unrounded significand with exponent zero. *)
Definition raw_int (n : Z) : float :=
  match n with
  | Z0 => S754_zero false
  | Zpos p => S754_finite false p 0
  | Zneg p => S754_finite true p 0
  end.

(** [int / int]: true division, the exact quotient rounded once; [None]
    when the divisor is zero or the quotient too large for a double. *)
Definition int_truediv (a b : Z) : option float :=
  if b =? 0 then None
  else match div (raw_int a) (raw_int b) with
       | S754_infinity _ | S754_nan => None
       | x => Some x
       end.

(** [float // float], following [_float_div_mod] of [floatobject.c]. *)
Definition floordiv (vx wx : float) : option float :=
  if is_zero wx then None
  else
    let md := fmod vx wx in
    let dv := div (sub vx md) wx in
    let dv :=
      if is_zero md then dv
      else if negb (Bool.eqb (ltb wx (S754_zero false)) (ltb md (S754_zero false)))
           then sub dv (of_int 1)
           else dv in
    if is_zero dv then Some (copysign_zero (div vx wx))
    else
      let fl := floor dv in
      if gtb (sub dv fl) (div (of_int 1) (of_int 2))
      then Some (add fl (of_int 1))
      else Some fl.

(** The literals [1.2] and [1.3] of the source: the doubles nearest to
    the decimal fractions. *)
Definition lit_1_2 : float := S754_finite false 5404319552844595 (-52).
Definition lit_1_3 : float := S754_finite false 5854679515581645 (-52).

End PyFloat.


(** ** Geometry helpers ([image_utils.py], lines 4-37)

    A bounding box is the tuple (left, top, right, bottom) that text
    measurement returns, in pixel units. *)

Record bbox := BBox { bb_left : Z; bb_top : Z; bb_right : Z; bb_bottom : Z }.

Definition center_position (final_poster_width : Z) (obj_bbox : bbox) : Z :=
  let obj_width := bb_right obj_bbox - bb_left obj_bbox in
  (final_poster_width - obj_width) `div` 2.

Definition add_bboxes (bbox1 bbox2 : bbox) : bbox :=
  let left' := Z.min (bb_left bbox1) (bb_left bbox2) in
  let top' := Z.min (bb_top bbox1) (bb_top bbox2) in
  let right' := Z.max (bb_right bbox1) (bb_right bbox2) in
  let bottom' := Z.max (bb_bottom bbox1) (bb_bottom bbox2) in
  BBox left' top' right' bottom'.

(** ** Exceptions and results *)

Inductive exn :=
| FileNotFoundError (path : string)
| UnidentifiedImageError (path : string)
| OSError (path : string)
| ValueError (msg : string)
| ZeroDivisionError
| OverflowError.

Inductive result (A : Type) :=
| Ok (a : A)
| Raise (e : exn).
Arguments Ok {A} a.
Arguments Raise {A} e.

Definition rbind {A B} (r : result A) (k : A -> result B) : result B :=
  match r with Ok a => k a | Raise e => Raise e end.

Definition of_option {A} (o : option A) (e : exn) : result A :=
  match o with Some a => Ok a | None => Raise e end.

Notation "'let?' x ':=' r 'in' k" := (rbind r (fun x => k))
  (at level 10, x pattern, r at level 100, k at level 200).

(** ** Images, as the imaging library presents them

    An image has a mode, a size and a pixel at every coordinate; only the
    coordinates inside the size are part of the picture.  Pixels are kept as
    (r, g, b, a) in every mode, with opaque alpha where the mode has none. *)

Definition pixel : Type := Z * Z * Z * Z.
Definition transparent : pixel := (0, 0, 0, 0).

Inductive mode := RGBA | RGB | Grey | Palette.

Record image := Image
  { im_mode : mode; width : Z; height : Z; getpixel : Z -> Z -> pixel }.

Definition im_size (im : image) : Z * Z := (width im, height im).

Inductive resampling := NEAREST | BICUBIC | LANCZOS.

(** A number as [ImageDraw] accepts it for a coordinate. *)
Inductive num :=
| Int (n : Z)
| Float (x : PyFloat.float).

Definition bytes := list Z.

(** A loaded font: the file it came from, its data and the point size. *)
Record font := Font { font_path : string; font_data : bytes; font_size : Z }.

(** The parts of the imaging library and of the codecs whose results the
    program only passes along: decoding and encoding, resampling, the
    per-pixel "over" blend, text measurement at the zero origin and text
    rasterisation. *)
Class Backend := {
  decode_image : bytes -> option image;
  encode_png : image -> bytes;
  valid_font : bytes -> bool;
  resample : resampling -> image -> Z * Z -> Z -> Z -> pixel;
  over : pixel -> pixel -> pixel;
  textbbox0 : font -> string -> bbox;
  render_text : image -> num * num -> string -> font -> string -> image
}.

Section Pillow.
Context `{Backend}.

(** [Image.new("RGBA", size, color)]. *)
Definition Image_new (sz : Z * Z) (color : pixel) : result image :=
  if (sz.1 <? 0) || (sz.2 <? 0)
  then Raise (ValueError "Width and height must be >= 0")
  else Ok (Image RGBA sz.1 sz.2 (fun _ _ => color)).

(** [im.convert("RGBA")]. *)
Definition convert_RGBA (im : image) : image :=
  Image RGBA (width im) (height im) (getpixel im).

(** [im.resize(size, resample)]: a copy when the size is unchanged, a
    resampled picture otherwise; palette images are resampled by nearest
    neighbour whatever filter is asked for. *)
Definition resize (im : image) (sz : Z * Z) (f : resampling) : result image :=
  if bool_decide (im_size im = sz) then Ok im
  else if (sz.1 <? 1) || (sz.2 <? 1)
  then Raise (ValueError "height and width must be > 0")
  else
    let f' := match im_mode im with Palette => NEAREST | _ => f end in
    Ok (Image (im_mode im) sz.1 sz.2 (resample f' im sz)).

(** [canvas.paste(im, (x, y))]: the region of [im]'s size at [(x, y)] is
    overwritten, alpha included; what falls outside the canvas is lost. *)
Definition paste (canvas im : image) (xy : Z * Z) : image :=
  Image (im_mode canvas) (width canvas) (height canvas)
    (fun x y =>
       if (xy.1 <=? x) && (x <? xy.1 + width im)
          && (xy.2 <=? y) && (y <? xy.2 + height im)
       then getpixel im (x - xy.1) (y - xy.2)
       else getpixel canvas x y).

(** [Image.alpha_composite(im1, im2)]: [im2] over [im1]. *)
Definition alpha_composite (im1 im2 : image) : result image :=
  match im_mode im1, im_mode im2 with
  | RGBA, RGBA =>
      if bool_decide (im_size im1 = im_size im2)
      then Ok (Image RGBA (width im1) (height im1)
                 (fun x y => over (getpixel im1 x y) (getpixel im2 x y)))
      else Raise (ValueError "images do not match")
  | _, _ => Raise (ValueError "image has wrong mode")
  end.

End Pillow.

(** ** The world: files, and the trace of what was done to them *)

Inductive event :=
| EOpen (path : string)
| ETruetype (path : string) (sz : Z)
| ESave (path : string)
| EMakedirs (path : string)
| EFetch (movie_id : Z)
| EDownload (file_path output_path : string)
| ERemove (path : string).

Record world := World { fs : gmap string bytes; log : list event }.

Definition M (A : Type) : Type := world -> result A * world.

Definition ret {A} (a : A) : M A := fun w => (Ok a, w).
Definition raise {A} (e : exn) : M A := fun w => (Raise e, w).
Definition bind {A B} (m : M A) (k : A -> M B) : M B :=
  fun w => match m w with
           | (Ok a, w') => k a w'
           | (Raise e, w') => (Raise e, w')
           end.
Definition lift {A} (r : result A) : M A := fun w => (r, w).
Definition emit (e : event) : M unit :=
  fun w => (Ok tt, World (fs w) (log w ++ [e])).

Notation "'let*' x ':=' m 'in' k" := (bind m (fun x => k))
  (at level 10, x pattern, m at level 100, k at level 200).
Notation "m ';;' k" := (bind m (fun _ => k))
  (at level 100, k at level 200, right associativity).

Section Files.
Context `{Backend}.

(** [Image.open(path)], with the pixel data loaded.  A file that is there
    but does not decode raises; the library picks the exception by the kind
    of damage ([UnidentifiedImageError] for an unknown format, a plain
    [OSError] for a truncated file), and the model names the first. *)
Definition Image_open (path : string) : M image :=
  emit (EOpen path) ;;
  fun w => match fs w !! path with
           | None => (Raise (FileNotFoundError path), w)
           | Some b => (of_option (decode_image b) (UnidentifiedImageError path), w)
           end.

(** [ImageFont.truetype(path, size)], at the sizes the library sets: see
    [max_font_size] below. *)
Definition truetype (path : string) (sz : Z) : M font :=
  emit (ETruetype path sz) ;;
  if sz <=? 0 then raise (ValueError "font size must be greater than 0")
  else fun w => match fs w !! path with
                | None => (Raise (OSError path), w)
                | Some b => if valid_font b then (Ok (Font path b sz), w)
                            else (Raise (OSError path), w)
                end.

(** [im.save(path, format='PNG')]. *)
Definition save (im : image) (path : string) : M unit :=
  emit (ESave path) ;;
  fun w => (Ok tt, World (<[path := encode_png im]> (fs w)) (log w)).

End Files.

(** The largest size a font loads at: FreeType keeps pixel sizes in 16
    bits, and [ImageFont.truetype] raises an [OSError] from 65536 on.
    [truetype] describes the loads up to this size. *)
Definition max_font_size : Z := 65535.

(** ** Adaptive font sizing ([image_utils.py], lines 40-67) *)

Section AdaptiveFont.
Context `{Backend}.

(** The [while] loop of lines 63-65, from the state [(font_size, font)]. *)
Equations? shrink_font (text font_path : string) (max_width font_size : Z)
    (fnt : font) (w : world) : result font * world
    by wf (Z.to_nat (font_size - 10)) lt :=
  shrink_font text font_path max_width font_size fnt w
    with decide (bb_right (textbbox0 fnt text) > max_width ∧ font_size > 10) := {
    | left _ with truetype font_path (font_size - 1) w := {
        | (Ok fnt', w') =>
            shrink_font text font_path max_width (font_size - 1) fnt' w'
        | (Raise e, w') => (Raise e, w') }
    | right _ => (Ok fnt, w) }.
Proof. lia. Qed.

Definition get_adaptive_font (text font_path : string) (max_width : Z)
    (initial_font_size : Z) : M font :=
  let font_size := initial_font_size in
  let* fnt := truetype font_path font_size in
  shrink_font text font_path max_width font_size fnt.

Definition default_initial_font_size : Z := 244.

End AdaptiveFont.

(** ** Cover resize ([image_utils.py], lines 70-108) *)

(** The builtin [max] on two floats: the first argument unless the second
    is strictly greater. *)
Definition py_max (a b : PyFloat.float) : PyFloat.float :=
  if PyFloat.gtb b a then b else a.

(** [int * float]. *)
Definition int_mul_float (n : Z) (x : PyFloat.float) : result PyFloat.float :=
  let? fn := of_option (PyFloat.of_int_checked n) OverflowError in
  Ok (PyFloat.mul fn x).

(** [int(x)] on a float. *)
Definition int_of_float (x : PyFloat.float) : result Z :=
  of_option (PyFloat.trunc_Z x) OverflowError.

(** [int / int]. *)
Definition int_div (a b : Z) : result PyFloat.float :=
  if b =? 0 then Raise ZeroDivisionError
  else of_option (PyFloat.int_truediv a b) OverflowError.

(** Lines 85-89: the scale factor. *)
Definition cover_scale (image_width image_height : Z) (target_size : Z * Z)
    : result PyFloat.float :=
  let? scale_width := int_div target_size.1 image_width in
  let? scale_height := int_div target_size.2 image_height in
  Ok (py_max scale_width scale_height).

(** Lines 92-93: the dimensions of the resized image. *)
Definition cover_size (image_width image_height : Z) (scale : PyFloat.float)
    : result (Z * Z) :=
  let? fw := int_mul_float image_width scale in
  let? new_width := int_of_float fw in
  let? fh := int_mul_float image_height scale in
  let? new_height := int_of_float fh in
  Ok (new_width, new_height).

(** Lines 102-103: where the resized image goes on the canvas. *)
Definition centered_offset (target_size new_size : Z * Z) : Z * Z :=
  ((target_size.1 - new_size.1) `div` 2, (target_size.2 - new_size.2) `div` 2).

Section SmartResize.
Context `{Backend}.

Definition smart_resize (image_path : string) (target_size : Z * Z) : M image :=
  let* opened := Image_open image_path in
  let image := convert_RGBA opened in
  let* scale := lift (cover_scale (width image) (height image) target_size) in
  let* new_size := lift (cover_size (width image) (height image) scale) in
  let* resized_image := lift (resize image new_size LANCZOS) in
  let* canvas := lift (Image_new target_size transparent) in
  let offset := centered_offset target_size new_size in
  ret (paste canvas resized_image offset).

End SmartResize.

(** ** The poster compositor ([image_utils.py], lines 111-202) *)

(** [int // float]. *)
Definition int_floordiv_float (n : Z) (d : PyFloat.float) : result PyFloat.float :=
  let? fn := of_option (PyFloat.of_int_checked n) OverflowError in
  of_option (PyFloat.floordiv fn d) ZeroDivisionError.

(** [float - int]. *)
Definition float_sub_int (x : PyFloat.float) (n : Z) : result PyFloat.float :=
  let? fn := of_option (PyFloat.of_int_checked n) OverflowError in
  Ok (PyFloat.sub x fn).

(** [int + float]. *)
Definition int_add_float (n : Z) (x : PyFloat.float) : result PyFloat.float :=
  let? fn := of_option (PyFloat.of_int_checked n) OverflowError in
  Ok (PyFloat.add fn x).

(** Line 137: [int(poster_height // 1.2 - blur_height)]. *)
Definition blur_offset (poster_height blur_height : Z) : result Z :=
  let? q := int_floordiv_float poster_height PyFloat.lit_1_2 in
  let? d := float_sub_int q blur_height in
  int_of_float d.

(** The five anchor points of lines 174-192. *)
Record layout := Layout
  { title_position : num * num;
    cine_position : num * num;
    fil_position : num * num;
    room_position : num * num;
    day_position : num * num }.

Definition text_layout (poster_width poster_height : Z)
    (title_bbox cine_bbox fil_bbox room_bbox day_bbox : bbox) : result layout :=
  let title_x := center_position poster_width title_bbox in
  let title_y := poster_height - (poster_height `div` 4) in
  let cine_width := bb_right cine_bbox - bb_left cine_bbox in
  let fil_width := bb_right fil_bbox - bb_left fil_bbox in
  let cinefil_width := cine_width + fil_width in
  let cine_height := bb_bottom cine_bbox - bb_top cine_bbox in
  let fil_height := bb_bottom fil_bbox - bb_top fil_bbox in
  let cinefil_height := cine_height + fil_height in
  let cinefil_bbox := add_bboxes cine_bbox fil_bbox in
  let cinefil_start_position := center_position poster_width cinefil_bbox in
  let cine_x := cinefil_start_position in
  let cine_y := poster_height - 450 + (cine_height `div` 4) in
  let fil_x := cinefil_start_position + bb_right cine_bbox in
  let fil_y := poster_height - 450 in
  let? room_shift := int_floordiv_float cinefil_width PyFloat.lit_1_3 in
  let? room_x := int_add_float (cine_x + bb_right room_bbox) room_shift in
  let room_y := cine_y + (cinefil_height `div` 4) in
  let day_x := cine_x - bb_right day_bbox - (cinefil_width `div` 3) in
  let day_y := cine_y + (cinefil_height `div` 4) in
  Ok (Layout (Int title_x, Int title_y) (Int cine_x, Int cine_y)
        (Int fil_x, Int fil_y) (Float room_x, Int room_y) (Int day_x, Int day_y)).

Definition target_size : Z * Z := (2400, 2940).

Definition gloock_path : string := "Gloock/Gloock-Regular.ttf".
Definition charmonman_path : string := "Charmonman/Charmonman-Bold.ttf".

Definition cine : string := "ciné".
Definition fil : string := "fil".
Definition room_info : string := "salle J160".
Definition day_info : string := "mardi 20h30".

Section Compositor.
Context `{Backend}.

(** Lines 134-146: the blur layer shifted on a blank canvas of the
    poster's size, then composited over the poster. *)
Definition blur_canvas (poster blur : image) : result image :=
  let poster_height := height poster in
  let blur_height := height blur in
  let? offset_y := blur_offset poster_height blur_height in
  let? blank := Image_new (im_size poster) transparent in
  Ok (paste blank blur (0, - offset_y)).

Definition apply_blur (poster blur : image) : result image :=
  let? blur_with_offset := blur_canvas poster blur in
  alpha_composite poster blur_with_offset.

(** Lines 195-199. *)
Definition draw_labels (im : image) (title_text : string) (lay : layout)
    (title_font gloock_font charmonman_font small_font : font) : image :=
  let im := render_text im (title_position lay) title_text title_font "white" in
  let im := render_text im (cine_position lay) cine gloock_font "white" in
  let im := render_text im (fil_position lay) fil charmonman_font "white" in
  let im := render_text im (room_position lay) room_info small_font "white" in
  render_text im (day_position lay) day_info small_font "white".

(** Lines 129-199: everything up to the drawn canvas. *)
Definition compose_poster
    (title_text poster_image_path blur_image_path : string) : M image :=
  let* poster := smart_resize poster_image_path target_size in
  let* blur_file := Image_open blur_image_path in
  let* blur_resized := lift (resize blur_file (2400, 2940) BICUBIC) in
  let blur := convert_RGBA blur_resized in
  let* final_poster := lift (apply_blur poster blur) in
  let max_title_width := width poster - 200 in
  let* title_font :=
    get_adaptive_font title_text gloock_path max_title_width
      default_initial_font_size in
  let* gloock_font := truetype gloock_path 126 in
  let* charmonman_font := truetype charmonman_path 126 in
  let* small_font := truetype gloock_path 44 in
  let title_bbox := textbbox0 title_font title_text in
  let cine_bbox := textbbox0 gloock_font cine in
  let fil_bbox := textbbox0 charmonman_font fil in
  let room_bbox := textbbox0 small_font room_info in
  let day_bbox := textbbox0 small_font day_info in
  let* lay :=
    lift (text_layout (width final_poster) (height final_poster)
            title_bbox cine_bbox fil_bbox room_bbox day_bbox) in
  ret (draw_labels final_poster title_text lay
         title_font gloock_font charmonman_font small_font).

(** The whole function: the composition, then line 202. *)
Definition create_image_poster
    (title_text poster_image_path output_image_path blur_image_path : string)
    : M unit :=
  let* final_poster := compose_poster title_text poster_image_path blur_image_path in
  save final_poster output_image_path.

End Compositor.

(** ** Orchestration ([main.py], [tmdb_utils.py])

    The remote service is a pair of functions: the image listing of a movie
    and the bytes behind a file path; [None] stands for a failed request.
    The file system is a flat map from paths to contents, so creating a
    directory leaves a trace and nothing else; the console is not part of
    the model. *)

Record image_entry := ImageEntry { file_path : string }.

Class Remote := {
  tmdb_images : Z -> option (list string) -> option (gmap string (list image_entry));
  tmdb_original : string -> option bytes
}.

Fixpoint ensure_directories_exist (paths : list string) : M unit :=
  match paths with
  | [] => ret tt
  | path :: rest => emit (EMakedirs path) ;; ensure_directories_exist rest
  end.

Section Orchestration.
Context `{Backend} `{Remote}.

Definition fetch_movie_images (movie_id : Z) (languages : option (list string))
    : M (option (gmap string (list image_entry))) :=
  emit (EFetch movie_id) ;;
  ret (tmdb_images movie_id languages).

(** The request and the write of line 61.  A failed request is caught and
    leaves no file; the write is taken to succeed, its directory being one
    of those [ensure_directories_exist] has made: an [OSError] of [open],
    which the source does not catch, is outside the model. *)
Definition download_image (file_path output_path : string) : M unit :=
  emit (EDownload file_path output_path) ;;
  match tmdb_original file_path with
  | Some content =>
      fun w => (Ok tt, World (<[output_path := content]> (fs w)) (log w))
  | None => ret tt
  end.

(** [os.remove(path)]. *)
Definition os_remove (path : string) : M unit :=
  emit (ERemove path) ;;
  fun w => match fs w !! path with
           | Some _ => (Ok tt, World (delete path (fs w)) (log w))
           | None => (Raise (FileNotFoundError path), w)
           end.

Definition original_path (save_original : bool) (label : string) (i : Z) : string :=
  if save_original
  then "originals/original_" +:+ label +:+ "_" +:+ pretty (i + 1) +:+ ".jpg"
  else "posters/temp_" +:+ label +:+ "_" +:+ pretty (i + 1) +:+ ".jpg".

Definition final_path (label : string) (i : Z) : string :=
  "posters/final_movie_" +:+ label +:+ "_" +:+ pretty (i + 1) +:+ ".png".

(** The loop of [create_movie_poster] over [enumerate(images)], from
    index [i]. *)
Fixpoint create_movie_poster_from (i : Z) (movie_title : string)
    (images : list image_entry) (label : string) (save_original : bool)
    : M unit :=
  match images with
  | [] => ret tt
  | image :: rest =>
      let image_path := file_path image in
      let original_image_path := original_path save_original label i in
      download_image image_path original_image_path ;;
      let output_image_path := final_path label i in
      create_image_poster movie_title original_image_path
        output_image_path "Blur.png" ;;
      (if save_original then ret tt else os_remove original_image_path) ;;
      create_movie_poster_from (i + 1) movie_title rest label save_original
  end.

Definition create_movie_poster (movie_title : string)
    (images : list image_entry) (label : string) (save_original : bool)
    : M unit :=
  create_movie_poster_from 0 movie_title images label save_original.

(** Truth value of a list. *)
Definition nonempty {A} (l : list A) : bool :=
  match l with [] => false | _ => true end.

Definition generate_movie_posters (movie_title : string) (movie_id : Z)
    (save_original : bool) (poster_languages : option (list string))
    : M unit :=
  ensure_directories_exist ["originals"; "posters"] ;;
  let* movie_images := fetch_movie_images movie_id poster_languages in
  match movie_images with
  | None => ret tt
  | Some movie_images =>
      if bool_decide (movie_images = ∅) then ret tt
      else
        let posters := default [] (movie_images !! "posters") in
        (if nonempty posters
         then create_movie_poster movie_title posters "poster" save_original
         else ret tt) ;;
        let backdrops := default [] (movie_images !! "backdrops") in
        if nonempty backdrops
        then create_movie_poster movie_title posters "backdrop" save_original
        else ret tt
  end.

End Orchestration.


(** ** Predicates on computations

    [reads K Q m]: whatever the world, [m] leaves the files as they are and
    appends events that satisfy [Q]; its result and those events are the
    same in every world that holds the same contents under the paths in
    [K]. *)

Definition reads {A} (K : string -> Prop) (Q : event -> Prop) (m : M A) : Prop :=
  forall w, exists r evs,
    m w = (r, World (fs w) (log w ++ evs))
    /\ Forall Q evs
    /\ forall w2, (forall k, K k -> fs w2 !! k = fs w !! k) ->
         m w2 = (r, World (fs w2) (log w2 ++ evs)).

(** What [compose_poster] may read, and what it may do. *)
Definition poster_inputs (poster_image_path blur_image_path : string) (k : string) : Prop :=
  k = poster_image_path \/ k = blur_image_path \/ k = gloock_path \/ k = charmonman_path.

Definition is_read (ev : event) : Prop :=
  match ev with
  | EOpen _ | ETruetype _ _ => True
  | _ => False
  end.

(** A path [Image.open] cannot read, and a path [ImageFont.truetype] cannot
    load, in a world. *)
Definition unreadable `{Backend} (w : world) (path : string) : Prop :=
  forall b, fs w !! path = Some b -> decode_image b = None.

Definition bad_font `{Backend} (w : world) (path : string) : Prop :=
  forall b, fs w !! path = Some b -> valid_font b = false.



(** ** A small concrete backend and world, for closed examples

    Image files hold a width and a height, the decoded picture is a colour
    ramp, resampling is nearest neighbour, and a text is half as wide as it
    is long, times the point size. *)

Definition toy_decode (b : bytes) : option image :=
  match b with
  | [w; h] =>
      if (0 <? w) && (0 <? h)
      then Some (Image RGB w h (fun x y => (x `mod` 256, y `mod` 256, 0, 255)))
      else None
  | _ => None
  end.

Definition toy_encode (im : image) : bytes :=
  [width im; height im; (getpixel im 0 0).2].

Definition toy_valid_font (b : bytes) : bool :=
  match b with [] => false | _ => true end.

Definition toy_resample (f : resampling) (im : image) (sz : Z * Z) (x y : Z) : pixel :=
  getpixel im ((x * width im) `div` sz.1) ((y * height im) `div` sz.2).

Definition toy_over (dst src : pixel) : pixel :=
  if src.2 =? 0 then dst else src.

Definition toy_textbbox0 (fnt : font) (text : string) : bbox :=
  BBox 0 0 ((font_size fnt * Z.of_nat (String.length text)) `div` 2) (font_size fnt).

Definition toy_render_text (im : image) (xy : num * num) (text : string)
    (fnt : font) (fill : string) : image := im.

Definition toy_backend : Backend :=
  {| decode_image := toy_decode;
     encode_png := toy_encode;
     valid_font := toy_valid_font;
     resample := toy_resample;
     over := toy_over;
     textbbox0 := toy_textbbox0;
     render_text := toy_render_text |}.

(** A measurement that is not monotone in the point size: the text is
    narrower at 11 points than at 10. *)
Definition kinked_textbbox0 (fnt : font) (text : string) : bbox :=
  BBox 0 0 (if font_size fnt =? 11 then 50 else 10 * font_size fnt) (font_size fnt).

Definition kinked_backend : Backend :=
  {| decode_image := toy_decode;
     encode_png := toy_encode;
     valid_font := toy_valid_font;
     resample := toy_resample;
     over := toy_over;
     textbbox0 := kinked_textbbox0;
     render_text := toy_render_text |}.

Definition toy_fs : gmap string bytes :=
  <["poster.jpg" := [1000; 2000]]>
    (<["square.jpg" := [700; 700]]>
       (<["Blur.png" := [64; 64]]>
          (<[gloock_path := [1]]>
             (<[charmonman_path := [2]]> ∅)))).

Definition toy_world : world := World toy_fs [].

(** A remote service with one poster and one backdrop. *)
Definition toy_remote : Remote :=
  {| tmdb_images := fun _ _ =>
       Some (<["posters" := [ImageEntry "/p1.jpg"]]>
               (<["backdrops" := [ImageEntry "/b1.jpg"]]> ∅));
     tmdb_original := fun fp =>
       if String.eqb fp "/p1.jpg" then Some [1000; 2000]
       else if String.eqb fp "/b1.jpg" then Some [1920; 1080]
       else None |}.

(** ** Vocabulary for the further properties *)

(** [outer] contains [inner]. *)
Definition encloses (outer inner : bbox) : Prop :=
  bb_left outer <= bb_left inner /\ bb_top outer <= bb_top inner
  /\ bb_right inner <= bb_right outer /\ bb_bottom inner <= bb_bottom outer.

(** The invariant of a measured box. *)
Definition valid_bbox (b : bbox) : Prop :=
  bb_left b <= bb_right b /\ bb_top b <= bb_bottom b.

(** The sizes [from], [from - 1], ... : [count] of them. *)
Fixpoint sizes_down (from : Z) (count : nat) : list Z :=
  match count with
  | O => []
  | S n => from :: sizes_down (from - 1) n
  end.

(** [touches W m]: whatever the world, [m] leaves alone every path outside
    [W]. *)
Definition touches {A} (W : string -> Prop) (m : M A) : Prop :=
  forall w p, ~ W p -> fs (m w).2 !! p = fs w !! p.

(** The paths under the two directories the program manages. *)
Definition managed (p : string) : Prop :=
  String.prefix "posters/" p = true \/ String.prefix "originals/" p = true.

(** Equality of two doubles as bit patterns. *)
Definition float_eqb (x y : PyFloat.float) : bool :=
  match x, y with
  | S754_zero s, S754_zero s' => Bool.eqb s s'
  | S754_infinity s, S754_infinity s' => Bool.eqb s s'
  | S754_nan, S754_nan => true
  | S754_finite s m e, S754_finite s' m' e' =>
      Bool.eqb s s' && Pos.eqb m m' && Z.eqb e e'
  | _, _ => false
  end.

(** The floor of [w / 1.3] over the rationals, less one at the positive
    multiples of 13. *)
Definition floor_13_tenths (w : Z) : Z :=
  (10 * w) `div` 13 - (if (0 <? w) && (w `mod` 13 =? 0) then 1 else 0).


(** ** Python floats: the values the source relies on *)

Lemma lit_1_2_nearest :
  PyFloat.int_truediv 12 10 = Some PyFloat.lit_1_2.
Proof. reflexivity. Qed.

Lemma lit_1_3_nearest :
  PyFloat.int_truediv 13 10 = Some PyFloat.lit_1_3.
Proof. reflexivity. Qed.

(** [1 // 0.1] is [9.0] and [-7 // 1.3] is [-6.0], as in the interpreter. *)
Lemma floordiv_known_values :
  (let? tenth := int_div 1 10 in int_floordiv_float 1 tenth)
    = Ok (PyFloat.of_int 9)
  /\ int_floordiv_float (-7) PyFloat.lit_1_3 = Ok (PyFloat.of_int (-6))
  /\ int_floordiv_float 517 PyFloat.lit_1_3 = Ok (PyFloat.of_int 397).
Proof. repeat split; vm_compute; reflexivity. Qed.

(** ** Geometry helpers *)

Lemma center_position_bounds W b :
  2 * center_position W b <= W - (bb_right b - bb_left b)
    < 2 * center_position W b + 2.
Proof.
  unfold center_position; cbv zeta.
  pose proof (Z.div_mod (W - (bb_right b - bb_left b)) 2 ltac:(lia)) as Hdm.
  pose proof (Z.mod_pos_bound (W - (bb_right b - bb_left b)) 2 ltac:(lia)).
  lia.
Qed.

(** C6: [center_position] is the integer floor of (W - (right - left)) / 2
    for every canvas width and bounding box, without clamping: negative when
    the box is wider than the canvas, and floor(W / 2) for a box of width
    zero. *)
Theorem center_position_floor (W : Z) (b : bbox) :
  center_position W b = (W - (bb_right b - bb_left b)) `div` 2
  /\ (2 * center_position W b <= W - (bb_right b - bb_left b)
        < 2 * center_position W b + 2)
  /\ (W < bb_right b - bb_left b -> center_position W b < 0)
  /\ (bb_right b = bb_left b -> center_position W b = W `div` 2).
Proof.
  pose proof (center_position_bounds W b) as Hb.
  split; [reflexivity|]. split; [exact Hb|]. split.
  - intros Hwide. lia.
  - intros Hz. unfold center_position; cbv zeta. f_equal. lia.
Qed.

Example center_position_wide : center_position 100 (BBox 0 0 301 10) = -101.
Proof. reflexivity. Qed.

Example center_position_empty : center_position 2401 (BBox 7 0 7 0) = 1200.
Proof. reflexivity. Qed.

(** C8: [add_bboxes] takes the minimum of the lefts and tops and the
    maximum of the rights and bottoms; it is commutative, associative and
    idempotent. *)
Theorem add_bboxes_semilattice (a b c : bbox) :
  add_bboxes a b =
    BBox (Z.min (bb_left a) (bb_left b)) (Z.min (bb_top a) (bb_top b))
         (Z.max (bb_right a) (bb_right b)) (Z.max (bb_bottom a) (bb_bottom b))
  /\ add_bboxes a b = add_bboxes b a
  /\ add_bboxes (add_bboxes a b) c = add_bboxes a (add_bboxes b c)
  /\ add_bboxes b b = b.
Proof.
  unfold add_bboxes; cbn. repeat split.
  - f_equal; lia.
  - f_equal; lia.
  - destruct b; cbn. f_equal; lia.
Qed.

(** ** Brand-mark layout *)

Lemma rbind_Ok {A B} (r : result A) (k : A -> result B) (b : B) :
  rbind r k = Ok b -> exists a, r = Ok a /\ k a = Ok b.
Proof. destruct r as [a|e]; cbn; [eauto | discriminate]. Qed.

(** C7: the two part boxes are unioned and the union is centred
    horizontally; the first part is drawn at height - 450 + part1_height // 4
    and the second at height - 450, starting at the first part's right
    edge. *)
Theorem brand_mark_layout (W Ht : Z) (title_bbox cine_bbox fil_bbox room_bbox day_bbox : bbox)
    (lay : layout) :
  text_layout W Ht title_bbox cine_bbox fil_bbox room_bbox day_bbox = Ok lay ->
  let start := center_position W (add_bboxes cine_bbox fil_bbox) in
  let union_width :=
    Z.max (bb_right cine_bbox) (bb_right fil_bbox)
    - Z.min (bb_left cine_bbox) (bb_left fil_bbox) in
  (2 * start <= W - union_width < 2 * start + 2)
  /\ cine_position lay =
       (Int start, Int (Ht - 450 + (bb_bottom cine_bbox - bb_top cine_bbox) `div` 4))
  /\ fil_position lay = (Int (start + bb_right cine_bbox), Int (Ht - 450)).
Proof.
  intros Hlay start union_width.
  split.
  { subst start union_width. apply (center_position_bounds W (add_bboxes cine_bbox fil_bbox)). }
  unfold text_layout in Hlay. cbv zeta in Hlay.
  apply rbind_Ok in Hlay as (shift & _ & Hlay).
  apply rbind_Ok in Hlay as (room_x & _ & Hlay).
  injection Hlay as <-. cbn. split; reflexivity.
Qed.

Lemma brand_mark_layout_witness :
  exists lay,
    text_layout 2400 2940 (BBox 0 50 900 250) (BBox 3 30 280 131)
      (BBox 0 20 150 140) (BBox 0 10 210 44) (BBox 0 10 240 44) = Ok lay
    /\ cine_position lay = (Int 1060, Int 2515)
    /\ fil_position lay = (Int 1340, Int 2490).
Proof.
  eexists. split; [vm_compute; reflexivity|].
  refine (let H := brand_mark_layout 2400 2940 (BBox 0 50 900 250) (BBox 3 30 280 131)
            (BBox 0 20 150 140) (BBox 0 10 210 44) (BBox 0 10 240 44) _ _ in _).
  destruct H as (_ & Hc & Hf). split; [exact Hc | exact Hf].
  Unshelve. vm_compute; reflexivity.
Defined.

(** ** The blur layer *)

Lemma blur_offset_fixed : blur_offset 2940 2940 = Ok (-490).
Proof. vm_compute; reflexivity. Qed.

(** On every height up to 4000 the float computation of line 137 agrees
    with the exact floor of height / 1.2. *)
Lemma blur_offset_exact_upto_4000 :
  forallb (fun h => match blur_offset h 0 with
                    | Ok v => v =? (h * 10) `div` 12
                    | Raise _ => false
                    end)
    (seqZ 0 4001) = true.
Proof. vm_compute; reflexivity. Qed.

Section BlurLayer.
Context `{Backend}.

Lemma Image_new_Ok (sz : Z * Z) (color : pixel) :
  0 <= sz.1 -> 0 <= sz.2 ->
  Image_new sz color = Ok (Image RGBA sz.1 sz.2 (fun _ _ => color)).
Proof.
  intros H1 H2. unfold Image_new.
  destruct (sz.1 <? 0) eqn:E1; [apply Z.ltb_lt in E1; lia|].
  destruct (sz.2 <? 0) eqn:E2; [apply Z.ltb_lt in E2; lia|].
  reflexivity.
Qed.

Lemma paste_inside (canvas im : image) (xy : Z * Z) (x y : Z) :
  xy.1 <= x < xy.1 + width im -> xy.2 <= y < xy.2 + height im ->
  getpixel (paste canvas im xy) x y = getpixel im (x - xy.1) (y - xy.2).
Proof.
  intros Hx Hy. cbn.
  destruct (Z.leb_spec xy.1 x); [|lia].
  destruct (Z.ltb_spec x (xy.1 + width im)); [|lia].
  destruct (Z.leb_spec xy.2 y); [|lia].
  destruct (Z.ltb_spec y (xy.2 + height im)); [|lia].
  reflexivity.
Qed.

Lemma paste_outside (canvas im : image) (xy : Z * Z) (x y : Z) :
  ~ (xy.1 <= x < xy.1 + width im /\ xy.2 <= y < xy.2 + height im) ->
  getpixel (paste canvas im xy) x y = getpixel canvas x y.
Proof.
  intros Hout. cbn.
  destruct (Z.leb_spec xy.1 x); cbn; [|reflexivity].
  destruct (Z.ltb_spec x (xy.1 + width im)); cbn; [|reflexivity].
  destruct (Z.leb_spec xy.2 y); cbn; [|reflexivity].
  destruct (Z.ltb_spec y (xy.2 + height im)); cbn; [|reflexivity].
  exfalso. apply Hout. lia.
Qed.

Lemma paste_size (canvas im : image) (xy : Z * Z) :
  im_size (paste canvas im xy) = im_size canvas
  /\ im_mode (paste canvas im xy) = im_mode canvas.
Proof. split; reflexivity. Qed.

Lemma apply_blur_run (poster blur : image) :
  im_mode poster = RGBA ->
  im_size poster = (2400, 2940) ->
  height blur = 2940 ->
  let canvas := paste (Image RGBA 2400 2940 (fun _ _ => transparent)) blur (0, 490) in
  blur_canvas poster blur = Ok canvas
  /\ alpha_composite poster canvas =
       Ok (Image RGBA 2400 2940
             (fun x y => over (getpixel poster x y) (getpixel canvas x y)))
  /\ apply_blur poster blur = alpha_composite poster canvas.
Proof.
  intros Hmode Hsize Hblur canvas.
  unfold im_size in Hsize. injection Hsize as Hw Hh.
  assert (Hcanvas : blur_canvas poster blur = Ok canvas).
  { unfold blur_canvas. rewrite Hh, Hblur, blur_offset_fixed. cbn [rbind].
    unfold im_size. rewrite Hw, Hh. reflexivity. }
  split; [exact Hcanvas|]. split.
  - unfold alpha_composite. rewrite Hmode. cbn [im_mode canvas paste].
    rewrite bool_decide_eq_true_2; [by rewrite Hw, Hh|].
    unfold im_size. cbn. congruence.
  - unfold apply_blur. rewrite Hcanvas. reflexivity.
Qed.


End BlurLayer.


(** ** Read-only computations *)

Lemma world_nil (w : world) : World (fs w) (log w ++ []) = w.
Proof. destruct w; cbn. by rewrite app_nil_r. Qed.

Lemma reads_ext {A} K Q (m m' : M A) :
  (forall w, m w = m' w) -> reads K Q m' -> reads K Q m.
Proof.
  intros Hext Hm w. destruct (Hm w) as (r & evs & Hr & HQ & Hdep).
  exists r, evs. rewrite !Hext. split; [done|]. split; [done|].
  intros w2 Hk. rewrite Hext. by apply Hdep.
Qed.

Lemma reads_lift {A} K Q (r : result A) : reads K Q (lift r).
Proof.
  intros w. exists r, []. unfold lift. rewrite world_nil.
  split; [done|]. split; [constructor|]. intros w2 _. by rewrite world_nil.
Qed.

Lemma reads_ret {A} K Q (a : A) : reads K Q (ret a).
Proof. apply (reads_lift K Q (Ok a)). Qed.

Lemma reads_raise {A} K Q (e : exn) : reads K Q (@raise A e).
Proof. apply (reads_lift K Q (Raise e)). Qed.

Lemma reads_emit K (Q : event -> Prop) (e : event) : Q e -> reads K Q (emit e).
Proof.
  intros He w. exists (Ok tt), [e]. split; [done|].
  split; [by repeat constructor|]. done.
Qed.

Lemma reads_bind {A B} K Q (m : M A) (k : A -> M B) :
  reads K Q m -> (forall a, reads K Q (k a)) -> reads K Q (bind m k).
Proof.
  intros Hm Hk w. destruct (Hm w) as (r & evs & Hr & HQ & Hdep).
  destruct r as [a|e].
  - destruct (Hk a (World (fs w) (log w ++ evs))) as (r' & evs' & Hr' & HQ' & Hdep').
    cbn in Hr', Hdep'.
    exists r', (evs ++ evs'). unfold bind. rewrite Hr, Hr', app_assoc.
    split; [done|]. split; [by apply Forall_app|].
    intros w2 Hagree. rewrite (Hdep w2 Hagree).
    rewrite (Hdep' (World (fs w2) (log w2 ++ evs))); cbn; [|done].
    by rewrite app_assoc.
  - exists (Raise e), evs. unfold bind. rewrite Hr.
    split; [done|]. split; [done|].
    intros w2 Hagree. by rewrite (Hdep w2 Hagree).
Qed.

Lemma reads_lookup {A} (K : string -> Prop) Q (path : string)
    (f : option bytes -> result A) :
  K path -> reads K Q (fun w => (f (fs w !! path), w)).
Proof.
  intros HK w. exists (f (fs w !! path)), []. rewrite world_nil.
  split; [done|]. split; [constructor|].
  intros w2 Hagree. by rewrite world_nil, (Hagree path HK).
Qed.

Section ReadsFiles.
Context `{Backend}.

Lemma reads_Image_open (K : string -> Prop) (Q : event -> Prop) (path : string) :
  K path -> Q (EOpen path) -> reads K Q (Image_open path).
Proof.
  intros HK HQ. unfold Image_open. apply reads_bind; [by apply reads_emit|].
  intros _.
  eapply reads_ext;
    [|apply (reads_lookup K Q path
               (fun o => match o with
                         | None => Raise (FileNotFoundError path)
                         | Some b => of_option (decode_image b) (UnidentifiedImageError path)
                         end) HK)].
  intros w. cbn. by destruct (fs w !! path).
Qed.

Lemma reads_truetype (K : string -> Prop) (Q : event -> Prop) (path : string) (sz : Z) :
  K path -> Q (ETruetype path sz) -> reads K Q (truetype path sz).
Proof.
  intros HK HQ. unfold truetype. apply reads_bind; [by apply reads_emit|].
  intros _. destruct (sz <=? 0); [apply reads_raise|].
  eapply reads_ext;
    [|apply (reads_lookup K Q path
               (fun o => match o with
                         | None => Raise (OSError path)
                         | Some b => if valid_font b then Ok (Font path b sz)
                                     else Raise (OSError path)
                         end) HK)].
  intros w. cbn. destruct (fs w !! path) as [b|]; [|done]. by destruct (valid_font b).
Qed.

(** The loop, one iteration unfolded. *)
Lemma shrink_font_step (text font_path : string) (max_width font_size : Z)
    (fnt : font) (w : world) :
  shrink_font text font_path max_width font_size fnt w =
  if decide (bb_right (textbbox0 fnt text) > max_width /\ font_size > 10)
  then bind (truetype font_path (font_size - 1))
         (shrink_font text font_path max_width (font_size - 1)) w
  else (Ok fnt, w).
Proof.
  rewrite shrink_font_equation_1.
  destruct (decide (bb_right (textbbox0 fnt text) > max_width /\ font_size > 10));
    simpl; [|reflexivity].
  unfold bind. destruct (truetype font_path (font_size - 1) w) as [[f'|e] w']; reflexivity.
Qed.

Lemma reads_shrink_font (K : string -> Prop) (Q : event -> Prop)
    (text font_path : string) (max_width : Z) :
  K font_path -> (forall sz, Q (ETruetype font_path sz)) ->
  forall (n : nat) (font_size : Z) (fnt : font),
    (Z.to_nat (font_size - 10) <= n)%nat ->
    reads K Q (shrink_font text font_path max_width font_size fnt).
Proof.
  intros HK HQ n. induction n as [|n IH]; intros font_size fnt Hn.
  - eapply reads_ext; [intros w; apply shrink_font_step|].
    destruct (decide _) as [[_ Hgt]|_]; [lia|]. apply (reads_ret K Q fnt).
  - eapply reads_ext; [intros w; apply shrink_font_step|].
    destruct (decide _) as [[_ Hgt]|_]; [|apply (reads_ret K Q fnt)].
    apply reads_bind; [by apply reads_truetype|].
    intros f'. apply IH. lia.
Qed.

Lemma reads_get_adaptive_font (K : string -> Prop) (Q : event -> Prop)
    (text font_path : string) (max_width initial_font_size : Z) :
  K font_path -> (forall sz, Q (ETruetype font_path sz)) ->
  reads K Q (get_adaptive_font text font_path max_width initial_font_size).
Proof.
  intros HK HQ. unfold get_adaptive_font. cbv zeta.
  apply reads_bind; [by apply reads_truetype|].
  intros fnt. by eapply reads_shrink_font.
Qed.

Lemma reads_smart_resize (K : string -> Prop) (Q : event -> Prop)
    (image_path : string) (sz : Z * Z) :
  K image_path -> Q (EOpen image_path) -> reads K Q (smart_resize image_path sz).
Proof.
  intros HK HQ. unfold smart_resize.
  apply reads_bind; [by apply reads_Image_open|]. intros opened. cbv zeta.
  apply reads_bind; [apply reads_lift|]. intros scale.
  apply reads_bind; [apply reads_lift|]. intros new_size.
  apply reads_bind; [apply reads_lift|]. intros resized.
  apply reads_bind; [apply reads_lift|]. intros canvas.
  apply reads_ret.
Qed.

Lemma reads_compose_poster (title_text poster_image_path blur_image_path : string) :
  reads (poster_inputs poster_image_path blur_image_path) is_read
    (compose_poster title_text poster_image_path blur_image_path).
Proof.
  unfold compose_poster, poster_inputs.
  apply reads_bind; [apply reads_smart_resize; [tauto|exact I]|]. intros poster.
  apply reads_bind; [apply reads_Image_open; [tauto|exact I]|]. intros blur_file.
  apply reads_bind; [apply reads_lift|]. intros blur_resized. cbv zeta.
  apply reads_bind; [apply reads_lift|]. intros final_poster.
  apply reads_bind; [apply reads_get_adaptive_font; [tauto|intros; exact I]|].
  intros title_font.
  apply reads_bind; [apply reads_truetype; [tauto|exact I]|]. intros gloock_font.
  apply reads_bind; [apply reads_truetype; [tauto|exact I]|]. intros charmonman_font.
  apply reads_bind; [apply reads_truetype; [tauto|exact I]|]. intros small_font.
  apply reads_bind; [apply reads_lift|]. intros lay.
  apply reads_ret.
Qed.

End ReadsFiles.

(** ** Adaptive font sizing *)

Section AdaptiveFontFacts.
Context `{Backend}.

Lemma truetype_valid (path : string) (sz : Z) (data : bytes) (w : world) :
  fs w !! path = Some data -> valid_font data = true -> 0 < sz ->
  truetype path sz w =
    (Ok (Font path data sz), World (fs w) (log w ++ [ETruetype path sz])).
Proof.
  intros Hfs Hvalid Hsz. unfold truetype, bind, emit.
  destruct (Z.leb_spec sz 0); [lia|]. cbn. by rewrite Hfs, Hvalid.
Qed.

Lemma truetype_nonpositive (path : string) (sz : Z) (w : world) :
  sz <= 0 -> exists e w', truetype path sz w = (Raise e, w').
Proof.
  intros Hsz. unfold truetype, bind, emit.
  destruct (Z.leb_spec sz 0); [|lia]. cbn. eauto.
Qed.

Lemma truetype_invalid (path : string) (sz : Z) (w : world) :
  (forall data, fs w !! path = Some data -> valid_font data = false) ->
  exists e, truetype path sz w =
              (Raise e, World (fs w) (log w ++ [ETruetype path sz])).
Proof.
  intros Hbad. unfold truetype, bind, emit.
  destruct (sz <=? 0); cbn; [by eexists|].
  destruct (fs w !! path) as [data|] eqn:Hfs; [|by eexists].
  rewrite (Hbad data eq_refl). by eexists.
Qed.

(** The loop is a linear search downwards: it stops at the first size, from
    the starting one, at which the text fits or the size is not above 10. *)
Lemma shrink_font_spec (text path : string) (max_width : Z) (data : bytes) :
  valid_font data = true ->
  forall (n : nat) (s : Z) (w : world),
    (Z.to_nat (s - 10) <= n)%nat -> 0 < s ->
    fs w !! path = Some data ->
    exists s' evs,
      shrink_font text path max_width s (Font path data s) w =
        (Ok (Font path data s'), World (fs w) (log w ++ evs))
      /\ s' <= s
      /\ (s <= 10 -> s' = s)
      /\ (10 <= s -> 10 <= s')
      /\ (forall t, s' < t <= s ->
            bb_right (textbbox0 (Font path data t) text) > max_width)
      /\ (bb_right (textbbox0 (Font path data s') text) <= max_width \/ s' <= 10).
Proof.
  intros Hvalid n. induction n as [|n IH]; intros s w Hn Hs Hfs.
  - rewrite shrink_font_step.
    destruct (decide _) as [[_ Hgt]|Hstop]; [lia|].
    exists s, []. rewrite world_nil. repeat split; try lia.
  - rewrite shrink_font_step.
    destruct (decide _) as [[Hwide Hgt]|Hstop].
    + unfold bind. rewrite (truetype_valid path (s - 1) data w Hfs Hvalid ltac:(lia)).
      destruct (IH (s - 1) (World (fs w) (log w ++ [ETruetype path (s - 1)])))
        as (s' & evs & Hrun & Hle & Hsmall & Hfloor & Habove & Hfit);
        [lia | lia | exact Hfs |].
      cbn [fs log] in Hrun.
      exists s', (ETruetype path (s - 1) :: evs).
      rewrite Hrun. rewrite <- app_assoc. cbn [app].
      split; [reflexivity|]. split; [lia|]. split; [lia|]. split; [lia|].
      split; [|exact Hfit].
      intros t Ht. destruct (decide (t = s)) as [->|Hne]; [exact Hwide|].
      apply Habove. lia.
    + exists s, []. rewrite world_nil. repeat split; try lia.
Qed.

Lemma get_adaptive_font_spec (text path : string) (max_width init : Z)
    (data : bytes) (w : world) :
  fs w !! path = Some data -> valid_font data = true -> 0 < init ->
  exists s evs,
    get_adaptive_font text path max_width init w =
      (Ok (Font path data s), World (fs w) (log w ++ evs))
    /\ s <= init
    /\ (init <= 10 -> s = init)
    /\ (10 <= init -> 10 <= s)
    /\ (forall t, s < t <= init ->
          bb_right (textbbox0 (Font path data t) text) > max_width)
    /\ (bb_right (textbbox0 (Font path data s) text) <= max_width \/ s <= 10).
Proof.
  intros Hfs Hvalid Hinit. unfold get_adaptive_font, bind. cbv zeta.
  rewrite (truetype_valid path init data w Hfs Hvalid Hinit).
  destruct (shrink_font_spec text path max_width data Hvalid
              (Z.to_nat (init - 10)) init
              (World (fs w) (log w ++ [ETruetype path init])))
    as (s & evs & Hrun & Hrest); [lia | lia | exact Hfs |].
  cbn [fs log] in Hrun.
  exists s, (ETruetype path init :: evs).
  rewrite Hrun, <- app_assoc. cbn [app]. split; [reflexivity | exact Hrest].
Qed.

(** C4, amended: from an initial size of at least 10, and no larger than
    the library loads, and a valid font,
    [get_adaptive_font] returns a font and never raises; the size is between
    10 and the initial size; every size above it was too wide, and the text
    fits at it unless it is 10; a text that fits at the initial size keeps
    that size; a text too wide at every size from 10 to the initial one gets
    size 10, which is what happens when the width does not shrink as the size
    grows and the budget is below the width at size 10. *)
Theorem get_adaptive_font_linear_search (text path : string)
    (max_width init : Z) (data : bytes) (w : world) :
  fs w !! path = Some data -> valid_font data = true ->
  10 <= init <= max_font_size ->
  let width_at := fun t => bb_right (textbbox0 (Font path data t) text) in
  exists s w',
    get_adaptive_font text path max_width init w = (Ok (Font path data s), w')
    /\ fs w' = fs w
    /\ 10 <= s <= init
    /\ (forall t, s < t <= init -> width_at t > max_width)
    /\ (width_at s <= max_width \/ s = 10)
    /\ (width_at init <= max_width -> s = init)
    /\ ((forall t, 10 <= t <= init -> width_at t > max_width) -> s = 10)
    /\ ((forall t u, 10 <= t <= u -> u <= init -> width_at t <= width_at u) ->
        max_width < width_at 10 -> s = 10).
Proof.
  intros Hfs Hvalid Hinit width_at.
  destruct (get_adaptive_font_spec text path max_width init data w Hfs Hvalid
              ltac:(lia))
    as (s & evs & Hrun & Hle & _ & Hfloor & Habove & Hfit).
  fold (width_at s) in Hfit.
  assert (Hall : (forall t, 10 <= t <= init -> width_at t > max_width) -> s = 10).
  { intros Hwide. specialize (Hwide s). lia. }
  exists s, (World (fs w) (log w ++ evs)).
  split; [exact Hrun|]. split; [reflexivity|]. split; [lia|].
  split; [exact Habove|]. split; [lia|]. split.
  { intros Hfits. destruct (decide (s = init)) as [|Hne]; [done|].
    specialize (Habove init). unfold width_at in Hfits. lia. }
  split; [exact Hall|].
  intros Hmono Hsmall. apply Hall. intros t Ht.
  specialize (Hmono 10 t). lia.
Qed.

(** C5: for budgets w1 <= w2, with text, font path and initial size fixed,
    the size returned for w1 is at most the size returned for w2; and both
    calls return whenever the font is valid and the initial size positive. *)
Theorem get_adaptive_font_monotone (text path : string) (init mw1 mw2 : Z)
    (w : world) :
  mw1 <= mw2 ->
  (forall f1 f2 w1 w2,
     get_adaptive_font text path mw1 init w = (Ok f1, w1) ->
     get_adaptive_font text path mw2 init w = (Ok f2, w2) ->
     font_size f1 <= font_size f2)
  /\ (forall data, fs w !! path = Some data -> valid_font data = true -> 0 < init ->
      exists f1 f2 w1 w2,
        get_adaptive_font text path mw1 init w = (Ok f1, w1)
        /\ get_adaptive_font text path mw2 init w = (Ok f2, w2)
        /\ font_size f1 <= font_size f2).
Proof.
  intros Hbudget.
  assert (Hvalid_case : forall data,
            fs w !! path = Some data -> valid_font data = true -> 0 < init ->
            exists s1 s2 w1 w2,
              get_adaptive_font text path mw1 init w = (Ok (Font path data s1), w1)
              /\ get_adaptive_font text path mw2 init w = (Ok (Font path data s2), w2)
              /\ s1 <= s2).
  { intros data Hfs Hvalid Hinit.
    destruct (get_adaptive_font_spec text path mw1 init data w Hfs Hvalid Hinit)
      as (s1 & evs1 & Hrun1 & Hle1 & Hsmall1 & Hfloor1 & Habove1 & Hfit1).
    destruct (get_adaptive_font_spec text path mw2 init data w Hfs Hvalid Hinit)
      as (s2 & evs2 & Hrun2 & Hle2 & Hsmall2 & Hfloor2 & Habove2 & Hfit2).
    exists s1, s2, (World (fs w) (log w ++ evs1)), (World (fs w) (log w ++ evs2)).
    split; [exact Hrun1|]. split; [exact Hrun2|].
    destruct (Z.le_gt_cases s1 s2) as [|Hgt]; [done|].
    specialize (Habove2 s1). lia. }
  split.
  - intros f1 f2 w1 w2 Hrun1 Hrun2.
    destruct (Z.le_gt_cases init 0) as [Hneg|Hpos].
    { destruct (truetype_nonpositive path init w Hneg) as (e & w' & Hraise).
      unfold get_adaptive_font, bind in Hrun1. cbv zeta in Hrun1.
      rewrite Hraise in Hrun1. discriminate. }
    destruct (fs w !! path) as [data|] eqn:Hfs.
    + destruct (valid_font data) eqn:Hvalid.
      * destruct (Hvalid_case data eq_refl Hvalid ltac:(lia))
          as (s1 & s2 & w1' & w2' & H1 & H2 & Hle).
        rewrite Hrun1 in H1. rewrite Hrun2 in H2.
        injection H1 as -> _. injection H2 as -> _. exact Hle.
      * destruct (truetype_invalid path init w) as (e & Hraise).
        { intros d Hd. rewrite Hfs in Hd. by injection Hd as <-. }
        unfold get_adaptive_font, bind in Hrun1. cbv zeta in Hrun1.
        rewrite Hraise in Hrun1. discriminate.
    + destruct (truetype_invalid path init w) as (e & Hraise).
      { intros d Hd. rewrite Hfs in Hd. discriminate. }
      unfold get_adaptive_font, bind in Hrun1. cbv zeta in Hrun1.
      rewrite Hraise in Hrun1. discriminate.
  - intros data Hfs Hvalid Hinit.
    destruct (Hvalid_case data Hfs Hvalid Hinit)
      as (s1 & s2 & w1 & w2 & H1 & H2 & Hle).
    by exists (Font path data s1), (Font path data s2), w1, w2.
Qed.

End AdaptiveFontFacts.

Lemma get_adaptive_font_linear_search_witness :
  exists s w',
    @get_adaptive_font toy_backend "The Substance and more text than fits"
      gloock_path 2200 244 toy_world = (Ok (Font gloock_path [1] s), w')
    /\ 10 <= s <= 244.
Proof.
  destruct (@get_adaptive_font_linear_search toy_backend
              "The Substance and more text than fits" gloock_path 2200 244 [1]
              toy_world ltac:(vm_compute; reflexivity) ltac:(reflexivity)
              ltac:(unfold max_font_size; lia))
    as (s & w' & Hrun & _ & Hs & _).
  exists s, w'. split; assumption.
Defined.

(** C4 as stated fails twice.  Started below 10 the function returns the
    starting size, here 5, although the text is wider than the budget.  And
    with a measurement that is not monotone in the size, a budget of 60, below
    the width 100 at size 10, yields size 11, where the text measures 50. *)
Lemma get_adaptive_font_floor_counterexample :
  (@get_adaptive_font toy_backend "ABCD" gloock_path 0 5 toy_world).1
    = Ok (Font gloock_path [1] 5)
  /\ bb_right (@textbbox0 toy_backend (Font gloock_path [1] 5) "ABCD") = 10
  /\ (@get_adaptive_font kinked_backend "ABCD" gloock_path 60 12 toy_world).1
       = Ok (Font gloock_path [1] 11)
  /\ bb_right (@textbbox0 kinked_backend (Font gloock_path [1] 10) "ABCD") = 100.
Proof. vm_compute. repeat split. Qed.

Lemma get_adaptive_font_monotone_witness :
  exists f1 f2 w1 w2,
    @get_adaptive_font toy_backend "The Substance and more text than fits"
      gloock_path 1500 244 toy_world = (Ok f1, w1)
    /\ @get_adaptive_font toy_backend "The Substance and more text than fits"
         gloock_path 2200 244 toy_world = (Ok f2, w2)
    /\ font_size f1 <= font_size f2.
Proof.
  destruct (@get_adaptive_font_monotone toy_backend
              "The Substance and more text than fits" gloock_path 244 1500 2200
              toy_world ltac:(lia)) as [_ Hboth].
  exact (Hboth [1] ltac:(vm_compute; reflexivity) ltac:(reflexivity) ltac:(lia)).
Defined.

(** ** Cover resize *)

(** The scenario of the specification: a 1000 x 2000 source and the
    2400 x 2940 target give the scale 2.4, a resized image of 2400 x 4800 and
    the offset (0, -930), which puts the vertical centre of the resized image
    on the vertical centre of the canvas. *)
Lemma cover_scenario_1000_2000 :
  cover_scale 1000 2000 (2400, 2940) = int_div 24 10
  /\ (let? scale := cover_scale 1000 2000 (2400, 2940) in
      cover_size 1000 2000 scale) = Ok (2400, 4800)
  /\ centered_offset (2400, 2940) (2400, 4800) = (0, -930)
  /\ -930 + 4800 `div` 2 = 2940 `div` 2.
Proof. vm_compute. repeat split. Qed.

(** Where the float product falls just short of the target: a 700 x 700
    source for a 720 x 720 target, and a 34600 x 42385 source for the
    2400 x 2940 target of the compositor. *)
Lemma cover_size_short_by_one :
  (let? scale := cover_scale 700 700 (720, 720) in cover_size 700 700 scale)
    = Ok (719, 719)
  /\ (let? scale := cover_scale 34600 42385 (2400, 2940) in
      cover_size 34600 42385 scale) = Ok (2399, 2939).
Proof. vm_compute. repeat split. Qed.

Section SmartResizeFacts.
Context `{Backend}.

Lemma Image_open_run (path : string) (w : world) :
  Image_open path w =
    (match fs w !! path with
     | None => Raise (FileNotFoundError path)
     | Some b => of_option (decode_image b) (UnidentifiedImageError path)
     end, World (fs w) (log w ++ [EOpen path])).
Proof.
  unfold Image_open, bind, emit. cbn. by destruct (fs w !! path).
Qed.

(** What a successful [smart_resize] did. *)
Lemma smart_resize_inv (path : string) (target : Z * Z) (w w' : world)
    (canvas : image) :
  smart_resize path target w = (Ok canvas, w') ->
  exists b src scale new_size resized,
    fs w !! path = Some b
    /\ decode_image b = Some src
    /\ cover_scale (width src) (height src) target = Ok scale
    /\ cover_size (width src) (height src) scale = Ok new_size
    /\ resize (convert_RGBA src) new_size LANCZOS = Ok resized
    /\ 0 <= target.1 /\ 0 <= target.2
    /\ canvas = paste (Image RGBA target.1 target.2 (fun _ _ => transparent))
                  resized (centered_offset target new_size)
    /\ w' = World (fs w) (log w ++ [EOpen path]).
Proof.
  unfold smart_resize, bind, lift, ret. rewrite Image_open_run.
  destruct (fs w !! path) as [b|]; [|discriminate].
  destruct (decode_image b) as [src|] eqn:Hdec; [|discriminate]. cbn [of_option].
  cbv zeta. cbn [width height convert_RGBA].
  destruct (cover_scale (width src) (height src) target) as [scale|] eqn:Hscale;
    [|discriminate].
  destruct (cover_size (width src) (height src) scale) as [new_size|] eqn:Hsize;
    [|discriminate].
  destruct (resize _ new_size LANCZOS) as [resized|] eqn:Hres; [|discriminate].
  unfold Image_new.
  destruct (Z.ltb_spec target.1 0); [discriminate|].
  destruct (Z.ltb_spec target.2 0); [discriminate|].
  cbn [orb]. intros Heq. injection Heq as <- <-.
  exists b, src, scale, new_size, resized. repeat split; done.
Qed.

(** The canvas that comes back has the target size, whatever the source. *)
Lemma smart_resize_canvas (path : string) (target : Z * Z) (w w' : world)
    (canvas : image) :
  smart_resize path target w = (Ok canvas, w') ->
  im_size canvas = target /\ im_mode canvas = RGBA /\ fs w' = fs w.
Proof.
  intros Hrun. apply smart_resize_inv in Hrun
    as (b & src & scale & new_size & resized & _ & _ & _ & _ & _ & _ & _ & -> & ->).
  destruct target. repeat split.
Qed.

Lemma smart_resize_run (path : string) (target : Z * Z) (w : world)
    (b : bytes) (src : image) (scale : PyFloat.float) (new_size : Z * Z)
    (resized : image) :
  fs w !! path = Some b ->
  decode_image b = Some src ->
  cover_scale (width src) (height src) target = Ok scale ->
  cover_size (width src) (height src) scale = Ok new_size ->
  resize (convert_RGBA src) new_size LANCZOS = Ok resized ->
  0 <= target.1 -> 0 <= target.2 ->
  smart_resize path target w =
    (Ok (paste (Image RGBA target.1 target.2 (fun _ _ => transparent))
           resized (centered_offset target new_size)),
     World (fs w) (log w ++ [EOpen path])).
Proof.
  intros Hfs Hdec Hscale Hsize Hres H1 H2.
  unfold smart_resize, bind, lift, ret. rewrite Image_open_run, Hfs, Hdec.
  cbn [of_option]. cbv zeta. cbn [width height convert_RGBA].
  rewrite Hscale, Hsize, Hres, (Image_new_Ok target transparent H1 H2).
  reflexivity.
Qed.

(** C1 fails on the code: for a readable 700 x 700 source and the target
    720 x 720, [smart_resize] returns a 720 x 720 canvas on which the resized
    image is 719 x 719, pasted at (0, 0): it covers the canvas in neither
    dimension, and the last column and the last row stay transparent. *)
Theorem smart_resize_leaves_edge_uncovered (path : string) (w : world)
    (b : bytes) (src : image) :
  fs w !! path = Some b ->
  decode_image b = Some src ->
  im_size src = (700, 700) ->
  exists canvas resized,
    smart_resize path (720, 720) w =
      (Ok canvas, World (fs w) (log w ++ [EOpen path]))
    /\ im_size canvas = (720, 720)
    /\ resized = Image RGBA 719 719 (resample LANCZOS (convert_RGBA src) (719, 719))
    /\ im_size resized = (719, 719)
    /\ canvas = paste (Image RGBA 720 720 (fun _ _ => transparent)) resized (0, 0)
    /\ (forall y, getpixel canvas 719 y = transparent)
    /\ (forall x, getpixel canvas x 719 = transparent).
Proof.
  intros Hfs Hdec Hsz. unfold im_size in Hsz. injection Hsz as Hw Hh.
  set (resized := Image RGBA 719 719
                    (resample LANCZOS (convert_RGBA src) (719, 719))).
  assert (Hscale : exists scale,
             cover_scale (width src) (height src) (720, 720) = Ok scale
             /\ cover_size (width src) (height src) scale = Ok (719, 719)).
  { rewrite Hw, Hh. eexists. split; vm_compute; reflexivity. }
  destruct Hscale as (scale & Hscale & Hsize).
  assert (Hres : resize (convert_RGBA src) (719, 719) LANCZOS = Ok resized).
  { unfold resize. rewrite bool_decide_eq_false_2.
    - reflexivity.
    - unfold im_size. cbn. rewrite Hw, Hh. intros Heq. discriminate. }
  exists (paste (Image RGBA 720 720 (fun _ _ => transparent)) resized (0, 0)), resized.
  split.
  { rewrite (smart_resize_run path (720, 720) w b src scale (719, 719) resized
               Hfs Hdec Hscale Hsize Hres); [reflexivity | cbn; lia | cbn; lia]. }
  split; [reflexivity|]. split; [reflexivity|]. split; [reflexivity|].
  split; [reflexivity|].
  split; intros; rewrite paste_outside; cbn; try reflexivity; lia.
Qed.

End SmartResizeFacts.

Lemma smart_resize_leaves_edge_uncovered_witness :
  exists canvas,
    (@smart_resize toy_backend "square.jpg" (720, 720) toy_world).1 = Ok canvas
    /\ im_size canvas = (720, 720)
    /\ getpixel canvas 719 300 = transparent
    /\ getpixel canvas 300 719 = transparent
    /\ (getpixel canvas 718 718).2 = 255.
Proof.
  destruct (@smart_resize_leaves_edge_uncovered toy_backend "square.jpg"
              toy_world [700; 700]
              (Image RGB 700 700 (fun x y => (x `mod` 256, y `mod` 256, 0, 255)))
              ltac:(vm_compute; reflexivity) ltac:(reflexivity) ltac:(reflexivity))
    as (canvas & resized & Hrun & Hsz & Hr & _ & Hc & Hcol & Hrow).
  exists canvas. rewrite Hrun. split; [reflexivity|]. split; [exact Hsz|].
  split; [apply Hcol|]. split; [apply Hrow|].
  rewrite Hc, Hr. vm_compute. reflexivity.
Defined.

(** ** The compositor as a whole *)

Section PosterFacts.
Context `{Backend}.

Lemma save_run (im : image) (path : string) (w : world) :
  save im path w =
    (Ok tt, World (<[path := encode_png im]> (fs w)) (log w ++ [ESave path])).
Proof. reflexivity. Qed.

Lemma Image_open_unreadable (path : string) (w : world) :
  unreadable w path ->
  exists e, Image_open path w = (Raise e, World (fs w) (log w ++ [EOpen path])).
Proof.
  intros Hbad. rewrite Image_open_run.
  destruct (fs w !! path) as [b|] eqn:Hfs; [|by eexists].
  rewrite (Hbad b Hfs). by eexists.
Qed.

Lemma smart_resize_log (path : string) (target : Z * Z) (w : world) :
  exists r, smart_resize path target w = (r, World (fs w) (log w ++ [EOpen path])).
Proof.
  unfold smart_resize, bind, lift, ret. rewrite Image_open_run.
  destruct (match fs w !! path with
            | Some b => of_option (decode_image b) (UnidentifiedImageError path)
            | None => Raise (FileNotFoundError path)
            end) as [opened|e]; [|by eexists].
  cbv zeta.
  destruct (cover_scale _ _ target) as [scale|]; [|by eexists].
  destruct (cover_size _ _ scale) as [new_size|]; [|by eexists].
  destruct (resize _ new_size LANCZOS) as [resized|]; [|by eexists].
  destruct (Image_new target transparent) as [canvas|]; by eexists.
Qed.

Lemma smart_resize_unreadable (path : string) (target : Z * Z) (w : world) :
  unreadable w path ->
  exists e, smart_resize path target w =
              (Raise e, World (fs w) (log w ++ [EOpen path])).
Proof.
  intros Hbad. destruct (Image_open_unreadable path w Hbad) as (e & Hopen).
  exists e. unfold smart_resize, bind. by rewrite Hopen.
Qed.

Lemma truetype_Ok_inv (path : string) (sz : Z) (w w' : world) (f : font) :
  truetype path sz w = (Ok f, w') ->
  exists data, fs w !! path = Some data /\ valid_font data = true.
Proof.
  unfold truetype, bind, emit. destruct (sz <=? 0); [discriminate|]. cbn.
  destruct (fs w !! path) as [data|]; [|discriminate].
  destruct (valid_font data) eqn:Hvalid; [|discriminate].
  intros _. exists data. split; [reflexivity | exact Hvalid].
Qed.

Lemma truetype_fs (path : string) (sz : Z) (w : world) :
  fs (truetype path sz w).2 = fs w.
Proof.
  unfold truetype, bind, emit. destruct (sz <=? 0); [reflexivity|]. cbn.
  destruct (fs w !! path) as [data|]; [|reflexivity].
  by destruct (valid_font data).
Qed.

Lemma resize_fixed_size (im : image) (f : resampling) :
  exists r, resize im (2400, 2940) f = Ok r /\ im_size r = (2400, 2940).
Proof.
  unfold resize. destruct (bool_decide (im_size im = (2400, 2940))) eqn:Hsame.
  - apply bool_decide_eq_true in Hsame. eauto.
  - cbn. eexists. split; reflexivity.
Qed.

(** Once both images are open the blur stage cannot fail. *)
Lemma blur_stage_Ok (poster blur_file : image) (path : string) (w w' : world) :
  smart_resize path target_size w = (Ok poster, w') ->
  exists blur_resized final,
    resize blur_file (2400, 2940) BICUBIC = Ok blur_resized
    /\ apply_blur poster (convert_RGBA blur_resized) = Ok final
    /\ im_size final = (2400, 2940).
Proof.
  intros Hposter.
  destruct (smart_resize_canvas path target_size w w' poster Hposter)
    as (Hsize & Hmode & _).
  destruct (resize_fixed_size blur_file BICUBIC) as (blur_resized & Hres & Hbsz).
  assert (Hbh : height (convert_RGBA blur_resized) = 2940).
  { unfold im_size in Hbsz. by injection Hbsz. }
  destruct (apply_blur_run poster (convert_RGBA blur_resized) Hmode Hsize Hbh)
    as (_ & Hover & Happly).
  eexists blur_resized, _. split; [exact Hres|].
  rewrite Happly. split; [exact Hover | reflexivity].
Qed.

(** What a successful [compose_poster] went through. *)
Lemma compose_poster_inv (title_text pp bp : string) (w w' : world) (drawn : image) :
  compose_poster title_text pp bp w = (Ok drawn, w') ->
  exists poster blur_file blur_resized final title_font gloock_font
         charmonman_font small_font lay w1 w2 w3,
    smart_resize pp target_size w = (Ok poster, w1)
    /\ Image_open bp w1 = (Ok blur_file, w2)
    /\ resize blur_file (2400, 2940) BICUBIC = Ok blur_resized
    /\ apply_blur poster (convert_RGBA blur_resized) = Ok final
    /\ get_adaptive_font title_text gloock_path (width poster - 200)
         default_initial_font_size w2 = (Ok title_font, w3)
    /\ (exists d1, fs w !! gloock_path = Some d1 /\ valid_font d1 = true)
    /\ (exists d2, fs w !! charmonman_path = Some d2 /\ valid_font d2 = true)
    /\ font_size gloock_font = 126 /\ font_size charmonman_font = 126
    /\ font_size small_font = 44
    /\ text_layout (width final) (height final)
         (textbbox0 title_font title_text) (textbbox0 gloock_font cine)
         (textbbox0 charmonman_font fil) (textbbox0 small_font room_info)
         (textbbox0 small_font day_info) = Ok lay
    /\ drawn = draw_labels final title_text lay title_font gloock_font
                 charmonman_font small_font
    /\ fs w' = fs w.
Proof.
  match goal with |- _ -> ?G => set (Concl := G) end.
  unfold compose_poster, bind, lift, ret. cbv zeta.
  destruct (smart_resize_log pp target_size w) as (r1 & Hr1). rewrite Hr1.
  destruct r1 as [poster|]; [|discriminate].
  set (w1 := World (fs w) (log w ++ [EOpen pp])) in *.
  rewrite (Image_open_run bp w1).
  destruct (match fs w1 !! bp with
            | Some b => of_option (decode_image b) (UnidentifiedImageError bp)
            | None => Raise (FileNotFoundError bp)
            end) as [blur_file|] eqn:Hblur; [|discriminate].
  set (w2 := World (fs w1) (log w1 ++ [EOpen bp])) in *.
  destruct (resize blur_file (2400, 2940) BICUBIC) as [blur_resized|] eqn:Hres;
    [|discriminate].
  destruct (apply_blur poster (convert_RGBA blur_resized)) as [final|] eqn:Hfinal;
    [|discriminate].
  destruct (reads_get_adaptive_font (fun k => k = gloock_path) (fun _ => True)
              title_text gloock_path (width poster - 200)
              default_initial_font_size eq_refl (fun _ => I) w2)
    as (r3 & evs3 & Hr3 & _ & _).
  rewrite Hr3. destruct r3 as [title_font|]; [|discriminate].
  set (w3 := World (fs w2) (log w2 ++ evs3)) in *.
  destruct (truetype gloock_path 126 w3) as [[gloock_font|] w4] eqn:Hg; [|discriminate].
  destruct (truetype charmonman_path 126 w4) as [[charmonman_font|] w5] eqn:Hc;
    [|discriminate].
  destruct (truetype gloock_path 44 w5) as [[small_font|] w6] eqn:Hs; [|discriminate].
  destruct (text_layout _ _ _ _ _ _ _) as [lay|] eqn:Hlay; [|discriminate].
  intros Heq. injection Heq as Hdrawn Hw'. subst Concl.
  assert (Hw4 : fs w4 = fs w).
  { pose proof (truetype_fs gloock_path 126 w3) as E. rewrite Hg in E. exact E. }
  assert (Hw5 : fs w5 = fs w).
  { pose proof (truetype_fs charmonman_path 126 w4) as E. rewrite Hc in E.
    cbn in E. congruence. }
  assert (Hw6 : fs w6 = fs w).
  { pose proof (truetype_fs gloock_path 44 w5) as E. rewrite Hs in E.
    cbn in E. congruence. }
  exists poster, blur_file, blur_resized, final, title_font, gloock_font,
    charmonman_font, small_font, lay, w1, w2, w3.
  split; [exact Hr1|]. split; [by rewrite Image_open_run, Hblur|].
  split; [exact Hres|]. split; [exact Hfinal|]. split; [exact Hr3|].
  split; [exact (truetype_Ok_inv _ _ _ _ _ Hg)|].
  split. { destruct (truetype_Ok_inv _ _ _ _ _ Hc) as (d & Hd & Hv).
           exists d. split; [congruence | exact Hv]. }
  assert (Hsz : forall path sz wa wb f, truetype path sz wa = (Ok f, wb) ->
                  font_size f = sz).
  { intros path sz wa wb f. unfold truetype, bind, emit.
    destruct (sz <=? 0); [discriminate|]. cbn.
    destruct (fs wa !! path) as [d|]; [|discriminate].
    destruct (valid_font d); [|discriminate]. intros E. by injection E as <- _. }
  split; [exact (Hsz _ _ _ _ _ Hg)|]. split; [exact (Hsz _ _ _ _ _ Hc)|].
  split; [exact (Hsz _ _ _ _ _ Hs)|]. split; [exact Hlay|].
  split; [by rewrite <- Hdrawn | by rewrite <- Hw'].
Qed.

(** The stages of a successful [compose_poster], at the sizes they have:
    the poster canvas and the blur layer are 2400 x 2940, and the labels are
    laid out on a canvas of that size. *)
Lemma compose_poster_stages (title_text pp bp : string) (w w' : world) (drawn : image) :
  compose_poster title_text pp bp w = (Ok drawn, w') ->
  exists poster blur final lay title_font gloock_font charmonman_font small_font,
    im_mode poster = RGBA
    /\ im_size poster = (2400, 2940)
    /\ im_size blur = (2400, 2940)
    /\ apply_blur poster blur = Ok final
    /\ text_layout 2400 2940
         (textbbox0 title_font title_text) (textbbox0 gloock_font cine)
         (textbbox0 charmonman_font fil) (textbbox0 small_font room_info)
         (textbbox0 small_font day_info) = Ok lay
    /\ drawn = draw_labels final title_text lay title_font gloock_font
                 charmonman_font small_font.
Proof.
  intros Hrun. apply compose_poster_inv in Hrun
    as (poster & blur_file & blur_resized & final & title_font & gloock_font
        & charmonman_font & small_font & lay & w1 & w2 & w3
        & Hposter & _ & Hres & Hfinal & _ & _ & _ & _ & _ & _ & Hlay & Hdrawn & _).
  destruct (smart_resize_canvas pp target_size w w1 poster Hposter)
    as (Hsize & Hmode & _).
  destruct (resize_fixed_size blur_file BICUBIC) as (r & Hr & Hrsz).
  rewrite Hres in Hr. injection Hr as <-.
  assert (Hbh : height (convert_RGBA blur_resized) = 2940).
  { unfold im_size in Hrsz. by injection Hrsz. }
  destruct (apply_blur_run poster (convert_RGBA blur_resized) Hmode Hsize Hbh)
    as (_ & Hover & Happly).
  rewrite Happly, Hover in Hfinal. injection Hfinal as <-.
  eexists poster, (convert_RGBA blur_resized), _, lay, title_font, gloock_font,
    charmonman_font, small_font.
  split; [exact Hmode|]. split; [exact Hsize|]. split; [exact Hrsz|].
  split; [by rewrite Happly, Hover|]. split; [exact Hlay | exact Hdrawn].
Qed.

End PosterFacts.

Section PosterRuns.
Context `{Backend}.

(** How [create_image_poster] ends, from how [compose_poster] ends. *)
Lemma create_image_poster_outcome (title_text pp out bp : string) (w : world) :
  exists r evs,
    compose_poster title_text pp bp w = (r, World (fs w) (log w ++ evs))
    /\ Forall is_read evs
    /\ create_image_poster title_text pp out bp w =
         match r with
         | Ok drawn =>
             (Ok tt, World (<[out := encode_png drawn]> (fs w))
                       (log w ++ evs ++ [ESave out]))
         | Raise e => (Raise e, World (fs w) (log w ++ evs))
         end
    /\ forall w2, (forall k, poster_inputs pp bp k -> fs w2 !! k = fs w !! k) ->
         compose_poster title_text pp bp w2 = (r, World (fs w2) (log w2 ++ evs)).
Proof.
  destruct (reads_compose_poster title_text pp bp w) as (r & evs & Hr & HQ & Hdep).
  exists r, evs. split; [exact Hr|]. split; [exact HQ|]. split; [|exact Hdep].
  unfold create_image_poster, bind. rewrite Hr.
  destruct r as [drawn|e]; [|reflexivity].
  rewrite save_run. cbn [fs log]. by rewrite <- app_assoc.
Qed.

(** C9: two runs of [create_image_poster] on the same title and on worlds
    that hold the same source image, blur image and fonts end the same way,
    do the same things, and on success leave the same bytes at the output
    path. *)
Theorem create_image_poster_deterministic (title_text pp out bp : string)
    (w1 w2 : world) :
  (forall k, poster_inputs pp bp k -> fs w1 !! k = fs w2 !! k) ->
  let run1 := create_image_poster title_text pp out bp w1 in
  let run2 := create_image_poster title_text pp out bp w2 in
  run1.1 = run2.1
  /\ (run1.1 = Ok tt ->
      exists png, fs run1.2 !! out = Some png /\ fs run2.2 !! out = Some png)
  /\ exists evs, log run1.2 = log w1 ++ evs /\ log run2.2 = log w2 ++ evs.
Proof.
  intros Hagree run1 run2.
  destruct (create_image_poster_outcome title_text pp out bp w1)
    as (r & evs & Hc1 & _ & Hrun1 & Hdep).
  destruct (create_image_poster_outcome title_text pp out bp w2)
    as (r' & evs' & Hc2 & _ & Hrun2 & _).
  rewrite (Hdep w2) in Hc2 by (intros k Hk; symmetry; by apply Hagree).
  injection Hc2 as <- Hlog. apply app_inv_head in Hlog. subst evs'.
  subst run1 run2. rewrite Hrun1, Hrun2.
  destruct r as [drawn|e]; cbn [fst snd fs log].
  - split; [reflexivity|]. split.
    + intros _. exists (encode_png drawn). by rewrite !lookup_insert_eq.
    + by exists (evs ++ [ESave out]).
  - split; [reflexivity|]. split; [discriminate|]. by exists evs.
Qed.

(** Run again on the world the first run left, the function writes the same
    bytes again, provided the output is not one of its own inputs. *)
Lemma create_image_poster_twice (title_text pp out bp : string) (w : world) :
  ~ poster_inputs pp bp out ->
  let run1 := create_image_poster title_text pp out bp w in
  let run2 := create_image_poster title_text pp out bp run1.2 in
  run1.1 = Ok tt -> run2.1 = Ok tt /\ fs run2.2 = fs run1.2.
Proof.
  intros Hout run1 run2.
  destruct (create_image_poster_outcome title_text pp out bp w)
    as (r & evs & Hc1 & _ & Hrun1 & Hdep).
  subst run2 run1. rewrite Hrun1.
  destruct r as [drawn|e]; cbn [fst snd]; [intros _|discriminate].
  set (w' := World (<[out := encode_png drawn]> (fs w)) (log w ++ evs ++ [ESave out])).
  destruct (create_image_poster_outcome title_text pp out bp w')
    as (r' & evs' & Hc2 & _ & Hrun2 & _).
  rewrite (Hdep w') in Hc2.
  - injection Hc2 as <- _. rewrite Hrun2. cbn [fst snd fs].
    split; [reflexivity|]. subst w'. cbn [fs]. by rewrite insert_insert_eq.
  - intros k Hk. subst w'. cbn [fs]. rewrite lookup_insert_ne; [reflexivity|].
    intros ->. by apply Hout.
Qed.

(** C10: an error of [create_image_poster] leaves every file as it was and
    comes before any save; a successful run saves once, as its last step;
    an unreadable poster stops the run after the one attempt to open it, an
    unreadable blur image after the one attempt to open it (or before, when
    the poster stage failed), and an invalid font makes the run fail. *)
Theorem create_image_poster_fails_cleanly (title_text pp out bp : string) (w : world) :
  let run := create_image_poster title_text pp out bp w in
  (forall e, run.1 = Raise e ->
     fs run.2 = fs w
     /\ exists evs, log run.2 = log w ++ evs /\ Forall is_read evs)
  /\ (run.1 = Ok tt ->
      exists evs png,
        log run.2 = log w ++ evs ++ [ESave out] /\ Forall is_read evs
        /\ fs run.2 = <[out := png]> (fs w))
  /\ (unreadable w pp ->
      exists e, run = (Raise e, World (fs w) (log w ++ [EOpen pp])))
  /\ (unreadable w bp ->
      exists e,
        run = (Raise e, World (fs w) (log w ++ [EOpen pp]))
        \/ run = (Raise e, World (fs w) (log w ++ [EOpen pp; EOpen bp])))
  /\ (bad_font w gloock_path \/ bad_font w charmonman_path ->
      exists e, run.1 = Raise e).
Proof.
  intros run.
  destruct (create_image_poster_outcome title_text pp out bp w)
    as (r & evs & Hc & Hread & Hrun & _).
  split; [|split; [|split; [|split]]].
  - intros e He. subst run. rewrite Hrun in *.
    destruct r as [drawn|e']; [discriminate|]. cbn. split; [reflexivity|].
    by exists evs.
  - intros Hok. subst run. rewrite Hrun in *.
    destruct r as [drawn|e']; [|discriminate]. cbn.
    by exists evs, (encode_png drawn).
  - intros Hbad. destruct (smart_resize_unreadable pp target_size w Hbad) as (e & Hsr).
    exists e. subst run. unfold create_image_poster, compose_poster, bind.
    by rewrite Hsr.
  - intros Hbad. subst run. unfold create_image_poster, compose_poster, bind.
    destruct (smart_resize_log pp target_size w) as (r1 & Hr1). rewrite Hr1.
    destruct r1 as [poster|e1]; [|exists e1; by left].
    destruct (Image_open_unreadable bp (World (fs w) (log w ++ [EOpen pp])) Hbad)
      as (e & Hopen).
    exists e. right. rewrite Hopen. cbn [fs log]. by rewrite <- app_assoc.
  - intros Hbad. subst run. rewrite Hrun.
    destruct r as [drawn|e]; [exfalso|by exists e].
    apply compose_poster_inv in Hc
      as (? & ? & ? & ? & ? & ? & ? & ? & ? & ? & ? & ? & _ & _ & _ & _ & _
          & (d1 & Hd1 & Hv1) & (d2 & Hd2 & Hv2) & _).
    destruct Hbad as [Hbad|Hbad].
    + rewrite (Hbad d1 Hd1) in Hv1. discriminate.
    + rewrite (Hbad d2 Hd2) in Hv2. discriminate.
Qed.

End PosterRuns.

Lemma create_image_poster_deterministic_witness :
  let w2 := World (<["posters/old.png" := [9]]> toy_fs) [ESave "posters/old.png"] in
  (@create_image_poster toy_backend "The Substance" "poster.jpg" "out.png"
     "Blur.png" toy_world).1
  = (@create_image_poster toy_backend "The Substance" "poster.jpg" "out.png"
       "Blur.png" w2).1.
Proof.
  intros w2.
  refine (proj1 (@create_image_poster_deterministic toy_backend "The Substance"
                   "poster.jpg" "out.png" "Blur.png" toy_world w2 _)).
  intros k [-> | [-> | [-> | ->]]]; vm_compute; reflexivity.
Defined.

(** Without the blur image the run stops at the second open, and nothing
    is written. *)
Example create_image_poster_missing_blur :
  let w := World (delete "Blur.png" toy_fs) [] in
  let run := @create_image_poster toy_backend "The Substance" "poster.jpg"
               "out.png" "Blur.png" w in
  run.1 = Raise (FileNotFoundError "Blur.png")
  /\ fs run.2 !! "out.png" = None
  /\ log run.2 = [EOpen "poster.jpg"; EOpen "Blur.png"].
Proof. vm_compute. repeat split. Qed.

(** The toy world run: the poster is composed and saved. *)
Example create_image_poster_toy_run :
  let run := @create_image_poster toy_backend "The Substance" "poster.jpg"
               "out.png" "Blur.png" toy_world in
  run.1 = Ok tt
  /\ fs run.2 !! "out.png" = Some [2400; 2940; 255]
  /\ log run.2 =
       [EOpen "poster.jpg"; EOpen "Blur.png"; ETruetype gloock_path 244;
        ETruetype gloock_path 126; ETruetype charmonman_path 126;
        ETruetype gloock_path 44; ESave "out.png"].
Proof. vm_compute. repeat split. Qed.

(** ** Orchestration *)





Section OrchestrationFacts.
Context `{Backend} `{Remote}.







End OrchestrationFacts.


(** The toy run, event by event: the poster listed by the service is
    downloaded, rendered and removed twice, once under each label; the
    backdrop is never asked for. *)
Example generate_movie_posters_toy_run :
  let run := @generate_movie_posters toy_backend toy_remote "The Substance"
               933260 false None toy_world in
  run.1 = Ok tt
  /\ List.filter (fun ev => match ev with
                            | EOpen _ | ETruetype _ _ => false
                            | _ => true
                            end) (log run.2) =
       [EMakedirs "originals"; EMakedirs "posters"; EFetch 933260;
        EDownload "/p1.jpg" "posters/temp_poster_1.jpg";
        ESave "posters/final_movie_poster_1.png";
        ERemove "posters/temp_poster_1.jpg";
        EDownload "/p1.jpg" "posters/temp_backdrop_1.jpg";
        ESave "posters/final_movie_backdrop_1.png";
        ERemove "posters/temp_backdrop_1.jpg"].
Proof. vm_compute. repeat split. Qed.


(** * Further properties of the code *)

(** ** Bounding boxes *)

(** [add_bboxes] gives the smallest box that contains both arguments, as
    its docstring says, and a box that satisfies left <= right and
    top <= bottom as soon as one argument does. *)
Theorem add_bboxes_least_enclosing (a b : bbox) :
  encloses (add_bboxes a b) a
  /\ encloses (add_bboxes a b) b
  /\ (forall c, encloses c a -> encloses c b -> encloses c (add_bboxes a b))
  /\ (valid_bbox a \/ valid_bbox b -> valid_bbox (add_bboxes a b)).
Proof.
  unfold encloses, valid_bbox, add_bboxes; cbn.
  split; [lia|]. split; [lia|]. split.
  - intros c Ha Hb. lia.
  - intros [Hv|Hv]; lia.
Qed.


(** The brand mark is centred as the union of two boxes that both start at
    the origin, but drawn as two parts side by side.  With both left
    bearings zero, the space left of the mark exceeds the space right of it
    by the width of the narrower part, up to the parity pixel: the mark sits
    to the right of the centre. *)
Theorem brand_mark_off_centre (W Ht : Z)
    (title_bbox cine_bbox fil_bbox room_bbox day_bbox : bbox) (lay : layout) :
  text_layout W Ht title_bbox cine_bbox fil_bbox room_bbox day_bbox = Ok lay ->
  bb_left cine_bbox = 0 -> bb_left fil_bbox = 0 ->
  0 <= bb_right cine_bbox -> 0 <= bb_right fil_bbox ->
  exists x y fx fy,
    cine_position lay = (Int x, Int y)
    /\ fil_position lay = (Int fx, Int fy)
    /\ (W - (fx + bb_right fil_bbox)) - x
       = (W - Z.max (bb_right cine_bbox) (bb_right fil_bbox)) `mod` 2
         - Z.min (bb_right cine_bbox) (bb_right fil_bbox).
Proof.
  intros Hlay Hcl Hfl Hcr Hfr.
  unfold text_layout in Hlay. cbv zeta in Hlay.
  apply rbind_Ok in Hlay as (shift & _ & Hlay).
  apply rbind_Ok in Hlay as (room_x & _ & Hlay).
  injection Hlay as <-. cbn [cine_position fil_position].
  eexists _, _, _, _. split; [reflexivity|]. split; [reflexivity|].
  unfold center_position, add_bboxes; cbn. rewrite Hcl, Hfl.
  set (U := Z.max (bb_right cine_bbox) (bb_right fil_bbox)).
  replace (U - Z.min 0 0) with U by lia.
  pose proof (Z.div_mod (W - U) 2 ltac:(lia)) as Hdm.
  subst U. lia.
Qed.

Lemma brand_mark_off_centre_witness :
  exists lay x y fx fy,
    text_layout 2400 2940 (BBox 0 50 900 250) (BBox 0 30 280 131)
      (BBox 0 20 150 140) (BBox 0 10 210 44) (BBox 0 10 240 44) = Ok lay
    /\ cine_position lay = (Int x, Int y)
    /\ fil_position lay = (Int fx, Int fy)
    /\ (2400 - (fx + 150)) - x = -150.
Proof.
  destruct (text_layout 2400 2940 (BBox 0 50 900 250) (BBox 0 30 280 131)
              (BBox 0 20 150 140) (BBox 0 10 210 44) (BBox 0 10 240 44))
    as [lay|e] eqn:Hlay; [|vm_compute in Hlay; discriminate].
  destruct (brand_mark_off_centre 2400 2940 (BBox 0 50 900 250) (BBox 0 30 280 131)
              (BBox 0 20 150 140) (BBox 0 10 210 44) (BBox 0 10 240 44) lay Hlay
              eq_refl eq_refl ltac:(cbn; lia) ltac:(cbn; lia))
    as (x & y & fx & fy & Hc & Hf & Hm).
  exists lay, x, y, fx, fy. split; [reflexivity|]. split; [exact Hc|].
  split; [exact Hf | exact Hm].
Defined.

(** ** Cover resize *)

Section SmartResizeMore.
Context `{Backend}.

Lemma resize_size (im : image) (sz : Z * Z) (f : resampling) (r : image) :
  resize im sz f = Ok r -> im_size r = sz.
Proof.
  unfold resize. destruct (bool_decide (im_size im = sz)) eqn:Hsame.
  - apply bool_decide_eq_true in Hsame. intros Heq. by injection Heq as <-.
  - destruct ((sz.1 <? 1) || (sz.2 <? 1)); [discriminate|].
    intros Heq. injection Heq as <-. by destruct sz.
Qed.

Lemma cover_scale_zero (image_width image_height : Z) (target : Z * Z) :
  (image_width = 0 ->
   cover_scale image_width image_height target = Raise ZeroDivisionError)
  /\ (image_height = 0 ->
      exists e, cover_scale image_width image_height target = Raise e).
Proof.
  unfold cover_scale, int_div. split.
  - intros ->. reflexivity.
  - intros ->. cbn [Z.eqb].
    destruct (image_width =? 0); [by eexists|].
    destruct (of_option _ OverflowError); by eexists.
Qed.

(** Whenever [smart_resize] returns, the source file was there and decoded,
    and the canvas is an RGBA image of exactly the target size that shows
    that source, scaled: with [new_size] the size lines 85-93 compute from
    the source's, the canvas holds at every point of the rectangle of that
    size placed at the centring offset the pixel of the source resampled by
    Lanczos to [new_size] (of the source itself when the size is already
    right), and is transparent at every other point.  The rectangle's centre
    is the canvas centre, to the half pixel that floor division leaves.  The
    only effect was to open the source once. *)
Theorem smart_resize_centred_canvas (path : string) (target : Z * Z)
    (w w' : world) (canvas : image) :
  smart_resize path target w = (Ok canvas, w') ->
  exists b src scale new_size,
    fs w !! path = Some b
    /\ decode_image b = Some src
    /\ cover_scale (width src) (height src) target = Ok scale
    /\ cover_size (width src) (height src) scale = Ok new_size
    /\ im_size canvas = target
    /\ im_mode canvas = RGBA
    /\ w' = World (fs w) (log w ++ [EOpen path])
    /\ let shown :=
         if bool_decide (im_size src = new_size) then getpixel src
         else resample LANCZOS (convert_RGBA src) new_size in
       let off := centered_offset target new_size in
       (2 * off.1 <= target.1 - new_size.1 < 2 * off.1 + 2)
       /\ (2 * off.2 <= target.2 - new_size.2 < 2 * off.2 + 2)
       /\ (forall x y,
             0 <= x < target.1 -> 0 <= y < target.2 ->
             off.1 <= x < off.1 + new_size.1 ->
             off.2 <= y < off.2 + new_size.2 ->
             getpixel canvas x y = shown (x - off.1) (y - off.2))
       /\ (forall x y,
             0 <= x < target.1 -> 0 <= y < target.2 ->
             ~ (off.1 <= x < off.1 + new_size.1
                /\ off.2 <= y < off.2 + new_size.2) ->
             getpixel canvas x y = transparent).
Proof.
  intros Hrun. apply smart_resize_inv in Hrun
    as (b & src & scale & new_size & resized
        & Hfs & Hdec & Hscale & Hsize & Hres & _ & _ & -> & ->).
  exists b, src, scale, new_size.
  split; [exact Hfs|]. split; [exact Hdec|]. split; [exact Hscale|].
  split; [exact Hsize|].
  split; [by destruct target|]. split; [reflexivity|]. split; [reflexivity|].
  cbv zeta.
  assert (Hshown : im_size resized = new_size
                   /\ getpixel resized =
                        if bool_decide (im_size src = new_size) then getpixel src
                        else resample LANCZOS (convert_RGBA src) new_size).
  { unfold resize in Hres.
    change (im_size (convert_RGBA src)) with (im_size src) in Hres.
    destruct (bool_decide (im_size src = new_size)) eqn:Hsame.
    - apply bool_decide_eq_true in Hsame. injection Hres as <-.
      split; [exact Hsame | reflexivity].
    - destruct ((new_size.1 <? 1) || (new_size.2 <? 1)); [discriminate|].
      injection Hres as <-. split; [by destruct new_size | reflexivity]. }
  destruct Hshown as [Hrsz Hpix]. rewrite <- Hpix.
  unfold im_size in Hrsz. destruct new_size as [nw nh]. injection Hrsz as Hw Hh.
  unfold centered_offset. cbn [fst snd].
  pose proof (Z.div_mod (target.1 - nw) 2 ltac:(lia)) as Hx.
  pose proof (Z.mod_pos_bound (target.1 - nw) 2 ltac:(lia)).
  pose proof (Z.div_mod (target.2 - nh) 2 ltac:(lia)) as Hy.
  pose proof (Z.mod_pos_bound (target.2 - nh) 2 ltac:(lia)).
  split; [lia|]. split; [lia|]. split.
  - intros x y _ _ Hxr Hyr.
    rewrite paste_inside; cbn [fst snd]; [reflexivity | lia | lia].
  - intros x y _ _ Hout. rewrite paste_outside; cbn [fst snd]; [reflexivity|].
    rewrite Hw, Hh. exact Hout.
Qed.

(** Whatever the outcome, [smart_resize] opens the source once and writes
    nothing.  A missing file raises [FileNotFoundError]; a file that does not
    decode raises, with the exception the library picks for it; a decoded
    image of width zero raises [ZeroDivisionError]; an image of height zero
    and a negative target dimension never yield a canvas. *)
Theorem smart_resize_read_only (path : string) (target : Z * Z) (w : world) :
  exists r,
    smart_resize path target w = (r, World (fs w) (log w ++ [EOpen path]))
    /\ (fs w !! path = None -> r = Raise (FileNotFoundError path))
    /\ (forall b, fs w !! path = Some b -> decode_image b = None ->
          exists e, r = Raise e)
    /\ (forall b src, fs w !! path = Some b -> decode_image b = Some src ->
          width src = 0 -> r = Raise ZeroDivisionError)
    /\ (forall b src, fs w !! path = Some b -> decode_image b = Some src ->
          height src = 0 -> exists e, r = Raise e)
    /\ (target.1 < 0 \/ target.2 < 0 -> exists e, r = Raise e).
Proof.
  destruct (smart_resize_log path target w) as (r & Hr).
  exists r. split; [exact Hr|]. pose proof Hr as Hrun.
  unfold smart_resize, bind, lift, ret in Hr. rewrite Image_open_run in Hr.
  split; [|split; [|split; [|split]]].
  - intros Hfs. rewrite Hfs in Hr. by injection Hr as <-.
  - intros b Hfs Hdec. rewrite Hfs, Hdec in Hr. eexists. by injection Hr as <-.
  - intros b src Hfs Hdec Hzero. rewrite Hfs, Hdec in Hr.
    cbn [of_option] in Hr. cbv zeta in Hr. cbn [width height convert_RGBA] in Hr.
    rewrite (proj1 (cover_scale_zero _ _ target) Hzero) in Hr. by injection Hr as <-.
  - intros b src Hfs Hdec Hzero. rewrite Hfs, Hdec in Hr.
    cbn [of_option] in Hr. cbv zeta in Hr. cbn [width height convert_RGBA] in Hr.
    destruct (proj2 (cover_scale_zero (width src) _ target) Hzero) as (e & He).
    rewrite He in Hr. exists e. by injection Hr as <-.
  - intros Hneg. destruct r as [canvas|e]; [exfalso|by exists e].
    apply smart_resize_inv in Hrun
      as (? & ? & ? & ? & ? & _ & _ & _ & _ & _ & H1 & H2 & _). lia.
Qed.

End SmartResizeMore.

Lemma smart_resize_centred_canvas_witness :
  exists canvas w',
    @smart_resize toy_backend "poster.jpg" (2400, 2940) toy_world = (Ok canvas, w')
    /\ im_size canvas = (2400, 2940)
    /\ im_mode canvas = RGBA
    /\ getpixel canvas 1200 0 = (244, 131, 0, 255).
Proof.
  destruct (@smart_resize toy_backend "poster.jpg" (2400, 2940) toy_world)
    as [[canvas|e] w'] eqn:Hrun; [|vm_compute in Hrun; discriminate].
  destruct (@smart_resize_centred_canvas toy_backend "poster.jpg" (2400, 2940)
              toy_world w' canvas Hrun)
    as (b & src & scale & new_size & Hfs & Hdec & Hscale & Hnew & Hsz & Hmode
        & _ & _ & _ & Hin & _).
  exists canvas, w'. split; [reflexivity|]. split; [exact Hsz|].
  split; [exact Hmode|].
  vm_compute in Hfs. injection Hfs as <-.
  vm_compute in Hdec. injection Hdec as <-.
  cbn [width height] in Hscale, Hnew.
  assert (Hsize : new_size = (2400, 4800)).
  { destruct (cover_scale 1000 2000 (2400, 2940)) as [sc|] eqn:Hsc;
      [|discriminate].
    injection Hscale as <-. vm_compute in Hsc. injection Hsc as <-.
    vm_compute in Hnew. by injection Hnew as <-. }
  subst new_size.
  rewrite (Hin 1200 0) by (vm_compute; split; [discriminate | reflexivity]).
  vm_compute. reflexivity.
Defined.

(** ** Adaptive font sizing *)

Section AdaptiveFontMore.
Context `{Backend}.

Lemma length_sizes_down (from : Z) (n : nat) : length (sizes_down from n) = n.
Proof. revert from. induction n as [|n IH]; intros from; cbn; [done | by rewrite IH]. Qed.

Lemma shrink_font_trace (text path : string) (max_width : Z) (data : bytes) :
  valid_font data = true ->
  forall (n : nat) (s : Z) (w : world),
    (Z.to_nat (s - 10) <= n)%nat -> 0 < s ->
    fs w !! path = Some data ->
    exists s',
      s' <= s
      /\ shrink_font text path max_width s (Font path data s) w =
           (Ok (Font path data s'),
            World (fs w)
              (log w ++ map (ETruetype path)
                          (sizes_down (s - 1) (Z.to_nat (s - s'))))).
Proof.
  intros Hvalid n. induction n as [|n IH]; intros s w Hn Hs Hfs.
  - rewrite shrink_font_step.
    destruct (decide _) as [[_ Hgt]|Hstop]; [lia|].
    exists s. split; [lia|]. rewrite Z.sub_diag. cbn. by rewrite world_nil.
  - rewrite shrink_font_step.
    destruct (decide _) as [[Hwide Hgt]|Hstop].
    + unfold bind. rewrite (truetype_valid path (s - 1) data w Hfs Hvalid ltac:(lia)).
      destruct (IH (s - 1) (World (fs w) (log w ++ [ETruetype path (s - 1)])))
        as (s' & Hle & Hrun); [lia | lia | exact Hfs |].
      cbn [fs log] in Hrun. exists s'. split; [lia|]. rewrite Hrun.
      replace (Z.to_nat (s - s')) with (S (Z.to_nat (s - 1 - s'))) by lia.
      cbn [sizes_down map]. by rewrite <- app_assoc.
    + exists s. split; [lia|]. rewrite Z.sub_diag. cbn. by rewrite world_nil.
Qed.

(** With a valid font and an initial size that is positive and no larger
    than the library loads, [get_adaptive_font]
    loads the font once at each size from the initial one down to the one it
    returns, in that order, and does nothing else: initial - returned + 1
    loads.  An initial size of 10 or less is returned as it is, after the one
    load, whatever the budget. *)
Theorem get_adaptive_font_loads (text path : string) (max_width init : Z)
    (data : bytes) (w : world) :
  fs w !! path = Some data -> valid_font data = true ->
  0 < init <= max_font_size ->
  exists s,
    s <= init
    /\ get_adaptive_font text path max_width init w =
         (Ok (Font path data s),
          World (fs w)
            (log w ++ map (ETruetype path)
                        (sizes_down init (Z.to_nat (init - s + 1)))))
    /\ length (sizes_down init (Z.to_nat (init - s + 1))) = Z.to_nat (init - s + 1)
    /\ (init <= 10 -> s = init).
Proof.
  intros Hfs Hvalid [Hinit _].
  destruct (get_adaptive_font_spec text path max_width init data w Hfs Hvalid Hinit)
    as (s0 & evs0 & Hrun0 & _ & Hsmall & _).
  unfold get_adaptive_font, bind in *. cbv zeta in *.
  rewrite (truetype_valid path init data w Hfs Hvalid Hinit) in *.
  destruct (shrink_font_trace text path max_width data Hvalid
              (Z.to_nat (init - 10)) init
              (World (fs w) (log w ++ [ETruetype path init])))
    as (s & Hle & Hrun); [lia | lia | exact Hfs |].
  cbn [fs log] in Hrun. exists s. split; [exact Hle|]. split.
  { rewrite Hrun.
    replace (Z.to_nat (init - s + 1)) with (S (Z.to_nat (init - s))) by lia.
    cbn [sizes_down map]. by rewrite <- app_assoc. }
  split; [apply length_sizes_down|].
  intros Hten. rewrite Hrun in Hrun0. injection Hrun0 as Hs _.
  rewrite Hs. by apply Hsmall.
Qed.

(** With a font file that is missing or invalid, or an initial size that is
    not positive, [get_adaptive_font] raises after its first and only attempt
    to load the font, and writes nothing. *)
Theorem get_adaptive_font_fails_at_first_load (text path : string)
    (max_width init : Z) (w : world) :
  bad_font w path \/ init <= 0 ->
  exists e,
    get_adaptive_font text path max_width init w =
      (Raise e, World (fs w) (log w ++ [ETruetype path init])).
Proof.
  intros Hbad. unfold get_adaptive_font, bind. cbv zeta.
  destruct Hbad as [Hbad|Hneg].
  - destruct (truetype_invalid path init w Hbad) as (e & Hraise).
    exists e. by rewrite Hraise.
  - unfold truetype, bind, emit. destruct (Z.leb_spec init 0); [|lia].
    cbn. by eexists.
Qed.

End AdaptiveFontMore.

Lemma get_adaptive_font_loads_witness :
  exists s w',
    @get_adaptive_font toy_backend "The Substance and more text than fits"
      gloock_path 4400 244 toy_world = (Ok (Font gloock_path [1] s), w')
    /\ log w' = map (ETruetype gloock_path) (sizes_down 244 (Z.to_nat (244 - s + 1))).
Proof.
  destruct (@get_adaptive_font_loads toy_backend
              "The Substance and more text than fits" gloock_path 4400 244 [1]
              toy_world ltac:(vm_compute; reflexivity) ltac:(reflexivity)
              ltac:(unfold max_font_size; lia)) as (s & _ & Hrun & _).
  eexists s, _. split; [exact Hrun | reflexivity].
Defined.

Lemma get_adaptive_font_fails_at_first_load_witness :
  exists e,
    @get_adaptive_font toy_backend "The Substance" "missing.ttf" 2200 244 toy_world
    = (Raise e, World toy_fs [ETruetype "missing.ttf" 244]).
Proof.
  refine (@get_adaptive_font_fails_at_first_load toy_backend "The Substance"
            "missing.ttf" 2200 244 toy_world (or_introl _)).
  intros b Hb. vm_compute in Hb. discriminate.
Defined.


(** ** The compositor *)

Section PosterMore.
Context `{Backend}.

(** A successful [create_image_poster] had a poster and a blur image that
    decode and two valid font files, and changed the file system at the
    output path only, where it left the encoding of the canvas it drew. *)
Theorem create_image_poster_success_needs_inputs (title_text pp out bp : string)
    (w w' : world) :
  create_image_poster title_text pp out bp w = (Ok tt, w') ->
  (exists b src, fs w !! pp = Some b /\ decode_image b = Some src)
  /\ (exists b blur, fs w !! bp = Some b /\ decode_image b = Some blur)
  /\ (exists d, fs w !! gloock_path = Some d /\ valid_font d = true)
  /\ (exists d, fs w !! charmonman_path = Some d /\ valid_font d = true)
  /\ exists drawn w1,
      compose_poster title_text pp bp w = (Ok drawn, w1)
      /\ fs w' = <[out := encode_png drawn]> (fs w).
Proof.
  intros Hrun.
  destruct (create_image_poster_outcome title_text pp out bp w)
    as (r & evs & Hc & _ & Hout & _).
  rewrite Hout in Hrun. destruct r as [drawn|e]; [|discriminate].
  injection Hrun as <-.
  pose proof Hc as Hinv. apply compose_poster_inv in Hinv
    as (poster & blur_file & ? & ? & ? & ? & ? & ? & ? & w1 & w2 & w3
        & Hposter & Hblur & _ & _ & _ & Hg & Hch & _).
  pose proof Hposter as Hp. apply smart_resize_inv in Hp
    as (b & src & ? & ? & ? & Hfs & Hdec & _ & _ & _ & _ & _ & _ & Hw1).
  split; [by exists b, src|]. split.
  { rewrite Image_open_run in Hblur. subst w1. cbn [fs] in Hblur.
    destruct (fs w !! bp) as [bb|]; [|discriminate].
    destruct (decode_image bb) as [blur|] eqn:Hd; [|discriminate].
    by exists bb, blur. }
  split; [exact Hg|]. split; [exact Hch|].
  by eexists drawn, _.
Qed.

End PosterMore.

Lemma create_image_poster_success_needs_inputs_witness :
  exists w',
    @create_image_poster toy_backend "The Substance" "poster.jpg" "out.png"
      "Blur.png" toy_world = (Ok tt, w')
    /\ exists d, fs toy_world !! charmonman_path = Some d
                 /\ toy_valid_font d = true.
Proof.
  destruct (@create_image_poster toy_backend "The Substance" "poster.jpg"
              "out.png" "Blur.png" toy_world) as [[[]|e] w'] eqn:Hrun;
    [|vm_compute in Hrun; discriminate].
  exists w'. split; [reflexivity|].
  exact (proj1 (proj2 (proj2 (proj2
           (@create_image_poster_success_needs_inputs toy_backend _ _ _ _ _ _ Hrun))))).
Defined.

Lemma create_image_poster_twice_witness :
  let run1 := @create_image_poster toy_backend "The Substance" "poster.jpg"
                "out.png" "Blur.png" toy_world in
  let run2 := @create_image_poster toy_backend "The Substance" "poster.jpg"
                "out.png" "Blur.png" run1.2 in
  run2.1 = Ok tt /\ fs run2.2 = fs run1.2.
Proof.
  intros run1 run2.
  refine (@create_image_poster_twice toy_backend "The Substance" "poster.jpg"
            "out.png" "Blur.png" toy_world _ _).
  - intros [Heq | [Heq | [Heq | Heq]]]; discriminate Heq.
  - vm_compute. reflexivity.
Defined.

(** ** Paths *)

Lemma string_app_cons (c : Ascii.ascii) (a b : string) :
  String c a +:+ b = String c (a +:+ b).
Proof. reflexivity. Qed.

Lemma string_length_app (a b : string) :
  String.length (a +:+ b) = (String.length a + String.length b)%nat.
Proof.
  induction a as [|c a IH]; [reflexivity|].
  rewrite string_app_cons. cbn [String.length]. by rewrite IH.
Qed.

Lemma string_app_inj_r (s a b : string) : a +:+ s = b +:+ s -> a = b.
Proof.
  revert b. induction a as [|c a IH]; intros [|c' b] Heq.
  - reflexivity.
  - change ("" +:+ s) with s in Heq.
    apply (f_equal String.length) in Heq.
    rewrite string_app_cons in Heq. cbn [String.length] in Heq.
    rewrite string_length_app in Heq. lia.
  - change ("" +:+ s) with s in Heq.
    apply (f_equal String.length) in Heq.
    rewrite string_app_cons in Heq. cbn [String.length] in Heq.
    rewrite string_length_app in Heq. lia.
  - rewrite !string_app_cons in Heq. injection Heq as -> Heq.
    f_equal. by apply IH.
Qed.

Lemma original_path_inj (save_original : bool) (label : string) (i j : Z) :
  original_path save_original label i = original_path save_original label j ->
  i = j.
Proof.
  unfold original_path. intros Heq.
  assert (Hp : pretty (i + 1) = pretty (j + 1)).
  { destruct save_original;
      apply (inj (String.app _)) in Heq; apply (inj (String.app _)) in Heq;
      apply (inj (String.app _)) in Heq; by apply string_app_inj_r in Heq. }
  apply (inj pretty) in Hp. lia.
Qed.

Lemma final_path_inj (label : string) (i j : Z) :
  final_path label i = final_path label j -> i = j.
Proof.
  unfold final_path. intros Heq.
  apply (inj (String.app _)) in Heq. apply (inj (String.app _)) in Heq.
  apply (inj (String.app _)) in Heq. apply string_app_inj_r in Heq.
  apply (inj pretty) in Heq. lia.
Qed.

Lemma final_path_not_original (label label' : string) (save_original : bool)
    (i j : Z) :
  final_path label i <> original_path save_original label' j.
Proof.
  unfold final_path, original_path. destruct save_original;
    rewrite !string_app_cons; intros Heq; discriminate Heq.
Qed.

Lemma final_path_managed (label : string) (i : Z) : managed (final_path label i).
Proof. left. reflexivity. Qed.

Lemma original_path_managed (save_original : bool) (label : string) (i : Z) :
  managed (original_path save_original label i).
Proof. destruct save_original; [right | left]; reflexivity. Qed.

Lemma final_path_not_input (label : string) (save_original : bool) (i : Z) :
  ~ poster_inputs (original_path save_original label i) "Blur.png"
      (final_path label i).
Proof.
  intros [Heq | [Heq | [Heq | Heq]]].
  - by apply final_path_not_original in Heq.
  - unfold final_path in Heq. rewrite !string_app_cons in Heq. discriminate Heq.
  - unfold final_path, gloock_path in Heq. rewrite !string_app_cons in Heq.
    discriminate Heq.
  - unfold final_path, charmonman_path in Heq. rewrite !string_app_cons in Heq.
    discriminate Heq.
Qed.

(** ** What a computation may write *)

Lemma touches_mono {A} (W W' : string -> Prop) (m : M A) :
  (forall p, W p -> W' p) -> touches W m -> touches W' m.
Proof. intros Himp Hm w p Hp. apply Hm. intros HW. by apply Hp, Himp. Qed.

Lemma touches_ret {A} (W : string -> Prop) (a : A) : touches W (ret a).
Proof. by intros w p _. Qed.

Lemma touches_emit (W : string -> Prop) (e : event) : touches W (emit e).
Proof. by intros w p _. Qed.

Lemma touches_bind {A B} (W : string -> Prop) (m : M A) (k : A -> M B) :
  touches W m -> (forall a, touches W (k a)) -> touches W (bind m k).
Proof.
  intros Hm Hk w p Hp. specialize (Hm w p Hp). unfold bind.
  destruct (m w) as [[a|e] w1]; cbn [snd] in *; [|exact Hm].
  rewrite (Hk a w1 p Hp). exact Hm.
Qed.

Section TouchesFacts.
Context `{Backend} `{Remote}.

Lemma touches_create_image_poster (title_text pp out bp : string) :
  touches (fun p => p = out) (create_image_poster title_text pp out bp).
Proof.
  intros w p Hp.
  destruct (create_image_poster_outcome title_text pp out bp w)
    as (r & evs & _ & _ & Hrun & _).
  rewrite Hrun. destruct r as [drawn|e]; cbn [snd fs]; [|reflexivity].
  rewrite lookup_insert_ne; [reflexivity|]. intros ->. by apply Hp.
Qed.

Lemma touches_download_image (fp op : string) :
  touches (fun p => p = op) (download_image fp op).
Proof.
  unfold download_image. apply touches_bind; [apply touches_emit|].
  intros _. destruct (tmdb_original fp); [|apply touches_ret].
  intros w p Hp. cbn. rewrite lookup_insert_ne; [reflexivity|].
  intros ->. by apply Hp.
Qed.

Lemma touches_os_remove (path : string) :
  touches (fun p => p = path) (os_remove path).
Proof.
  unfold os_remove. apply touches_bind; [apply touches_emit|].
  intros _ w p Hp. destruct (fs w !! path); cbn; [|reflexivity].
  rewrite lookup_delete_ne; [reflexivity|]. intros ->. by apply Hp.
Qed.

(** The paths of the entries of [images], counted from [i]. *)
Lemma touches_create_movie_poster_from (movie_title label : string)
    (save_original : bool) (images : list image_entry) :
  forall i,
    touches (fun p => exists (k : nat), (k < length images)%nat
                        /\ (p = original_path save_original label (i + Z.of_nat k)
                            \/ p = final_path label (i + Z.of_nat k)))
      (create_movie_poster_from i movie_title images label save_original).
Proof.
  induction images as [|image rest IH]; intros i; cbn [create_movie_poster_from].
  - apply touches_ret.
  - cbv zeta.
    assert (Hi : i + Z.of_nat 0 = i) by lia.
    apply touches_bind.
    { eapply touches_mono; [|apply touches_download_image].
      intros p ->. exists 0%nat. rewrite Hi. cbn [length]. split; [lia | by left]. }
    intros _. apply touches_bind.
    { eapply touches_mono; [|apply touches_create_image_poster].
      intros p ->. exists 0%nat. rewrite Hi. cbn [length]. split; [lia | by right]. }
    intros _. apply touches_bind.
    { destruct save_original; [apply touches_ret|].
      eapply touches_mono; [|apply touches_os_remove].
      intros p ->. exists 0%nat. rewrite Hi. cbn [length]. split; [lia | by left]. }
    intros _. eapply touches_mono; [|apply IH].
    intros p (k & Hk & Hp). exists (S k). cbn [length]. split; [lia|].
    replace (i + Z.of_nat (S k)) with (i + 1 + Z.of_nat k) by lia. exact Hp.
Qed.

Lemma touches_ensure_directories_exist (W : string -> Prop) (paths : list string) :
  touches W (ensure_directories_exist paths).
Proof.
  induction paths as [|path rest IH]; cbn [ensure_directories_exist].
  - apply touches_ret.
  - apply touches_bind; [apply touches_emit | intros _; exact IH].
Qed.

(** [generate_movie_posters] creates, overwrites and deletes files under
    posters/ and originals/ only: every other path, and so the blur image and
    the font files, holds after the run what it held before, whether the run
    succeeds or raises. *)
Theorem generate_movie_posters_keeps_other_files (movie_title : string)
    (movie_id : Z) (save_original : bool) (poster_languages : option (list string))
    (w : world) (p : string) :
  ~ managed p ->
  fs (generate_movie_posters movie_title movie_id save_original
        poster_languages w).2 !! p = fs w !! p.
Proof.
  revert w p.
  change (touches managed
            (generate_movie_posters movie_title movie_id save_original
               poster_languages)).
  assert (Hpass : forall title images label,
            touches managed (create_movie_poster title images label save_original)).
  { intros title images label. unfold create_movie_poster.
    eapply touches_mono; [|apply touches_create_movie_poster_from].
    intros p (k & _ & [-> | ->]);
      [apply original_path_managed | apply final_path_managed]. }
  unfold generate_movie_posters.
  apply touches_bind; [apply touches_ensure_directories_exist|]. intros _.
  apply touches_bind.
  { unfold fetch_movie_images. apply touches_bind; [apply touches_emit|].
    intros _. apply touches_ret. }
  intros [movie_images|]; [|apply touches_ret].
  destruct (bool_decide (movie_images = ∅)); [apply touches_ret|]. cbv zeta.
  apply touches_bind.
  { destruct (nonempty _); [apply Hpass | apply touches_ret]. }
  intros _. destruct (nonempty _); [apply Hpass | apply touches_ret].
Qed.

End TouchesFacts.

Lemma generate_movie_posters_keeps_other_files_witness :
  fs (@generate_movie_posters toy_backend toy_remote "The Substance" 933260
        false None toy_world).2 !! "Blur.png" = Some [64; 64].
Proof.
  refine (eq_trans
            (@generate_movie_posters_keeps_other_files toy_backend toy_remote
               "The Substance" 933260 false None toy_world "Blur.png" _) _).
  - intros [Hm | Hm]; vm_compute in Hm; discriminate Hm.
  - reflexivity.
Defined.

(** ** The orchestration loop *)

Section LoopFacts.
Context `{Backend} `{Remote}.

Lemma download_image_run (fp op : string) (w : world) :
  download_image fp op w =
    (Ok tt,
     World (match tmdb_original fp with
            | Some content => <[op := content]> (fs w)
            | None => fs w
            end) (log w ++ [EDownload fp op])).
Proof.
  unfold download_image, bind, emit, ret. by destruct (tmdb_original fp).
Qed.

Lemma smart_resize_missing (path : string) (target : Z * Z) (w : world) :
  fs w !! path = None ->
  smart_resize path target w =
    (Raise (FileNotFoundError path), World (fs w) (log w ++ [EOpen path])).
Proof.
  intros Hfs. unfold smart_resize, bind. rewrite Image_open_run, Hfs. reflexivity.
Qed.

Lemma create_image_poster_Ok_fs (title_text pp out bp : string) (w w' : world) :
  create_image_poster title_text pp out bp w = (Ok tt, w') ->
  exists b drawn,
    fs w !! pp = Some b /\ fs w' = <[out := encode_png drawn]> (fs w).
Proof.
  intros Hrun.
  destruct (create_image_poster_outcome title_text pp out bp w)
    as (r & evs & Hc & _ & Hout & _).
  rewrite Hout in Hrun. destruct r as [drawn|e]; [|discriminate].
  injection Hrun as <-.
  apply compose_poster_inv in Hc
    as (poster & ? & ? & ? & ? & ? & ? & ? & ? & w1 & ? & ? & Hposter & _).
  apply smart_resize_inv in Hposter as (b & ? & ? & ? & ? & Hfs & _).
  by exists b, drawn.
Qed.

(** [download_image] swallows a failed request, and the pass then stops at
    the open that follows: when the download of an entry fails and no file
    is already at its original path, [create_movie_poster] raises
    [FileNotFoundError] for that path after the download and the one open,
    writes nothing, and never reaches the entries after it. *)
Theorem failed_download_aborts_pass (i : Z) (movie_title label : string)
    (save_original : bool) (image : image_entry) (rest : list image_entry)
    (w : world) :
  tmdb_original (file_path image) = None ->
  fs w !! original_path save_original label i = None ->
  create_movie_poster_from i movie_title (image :: rest) label save_original w =
    (Raise (FileNotFoundError (original_path save_original label i)),
     World (fs w)
       (log w ++ [EDownload (file_path image) (original_path save_original label i);
                  EOpen (original_path save_original label i)])).
Proof.
  intros Hnet Hfs. cbn [create_movie_poster_from]. cbv zeta.
  unfold bind at 1. rewrite download_image_run, Hnet.
  unfold bind at 1. unfold create_image_poster, compose_poster.
  unfold bind at 1 2.
  rewrite (smart_resize_missing (original_path save_original label i)
             target_size
             (World (fs w)
                (log w ++ [EDownload (file_path image)
                             (original_path save_original label i)])) Hfs).
  cbn [fs log]. by rewrite <- app_assoc.
Qed.

Lemma create_movie_poster_from_post (movie_title label : string)
    (save_original : bool) (images : list image_entry) :
  forall i w w',
    create_movie_poster_from i movie_title images label save_original w
      = (Ok tt, w') ->
    forall (k : nat) entry, images !! k = Some entry ->
      (exists png, fs w' !! final_path label (i + Z.of_nat k) = Some png)
      /\ (if save_original
          then exists b,
                 fs w' !! original_path save_original label (i + Z.of_nat k) = Some b
          else fs w' !! original_path save_original label (i + Z.of_nat k) = None).
Proof.
  induction images as [|image rest IH]; intros i w w' Hrun k entry Hk;
    [by rewrite lookup_nil in Hk|].
  cbn [create_movie_poster_from] in Hrun. cbv zeta in Hrun.
  set (orig := original_path save_original label i) in *.
  set (final := final_path label i) in *.
  unfold bind at 1 in Hrun. rewrite download_image_run in Hrun.
  set (w1 := World _ (log w ++ [EDownload (file_path image) orig])) in Hrun.
  unfold bind at 1 in Hrun.
  destruct (create_image_poster movie_title orig final "Blur.png" w1)
    as [[[]|e] w2] eqn:Hposter; [|discriminate].
  destruct (create_image_poster_Ok_fs movie_title orig final "Blur.png" w1 w2
              Hposter) as (b & drawn & Horig & Hfs2).
  unfold bind at 1 in Hrun.
  set (cleanup := if save_original then ret tt else os_remove orig) in Hrun.
  destruct (cleanup w2) as [[[]|e] w3] eqn:Hclean; [|discriminate].
  assert (Hne : final <> orig) by apply final_path_not_original.
  assert (Hfinal3 : fs w3 !! final = Some (encode_png drawn)).
  { subst cleanup. destruct save_original.
    - injection Hclean as <-. rewrite Hfs2. apply lookup_insert_eq.
    - unfold os_remove, bind, emit in Hclean. cbn [fs log] in Hclean.
      destruct (fs w2 !! orig); [|discriminate]. injection Hclean as <-.
      cbn [fs]. rewrite lookup_delete_ne by done. rewrite Hfs2.
      apply lookup_insert_eq. }
  assert (Horig3 : if save_original then fs w3 !! orig = Some b
                   else fs w3 !! orig = None).
  { subst cleanup. destruct save_original.
    - injection Hclean as <-. rewrite Hfs2. by rewrite lookup_insert_ne.
    - unfold os_remove, bind, emit in Hclean. cbn [fs log] in Hclean.
      destruct (fs w2 !! orig); [|discriminate]. injection Hclean as <-.
      cbn [fs]. apply lookup_delete_eq. }
  pose proof (touches_create_movie_poster_from movie_title label save_original
                rest (i + 1) w3) as Hframe.
  rewrite Hrun in Hframe. cbn [snd] in Hframe.
  destruct k as [|k].
  - replace (i + Z.of_nat 0) with i by lia. fold orig final.
    assert (Hout : forall p, p = orig \/ p = final ->
              ~ (exists k0 : nat, (k0 < length rest)%nat
                   /\ (p = original_path save_original label (i + 1 + Z.of_nat k0)
                       \/ p = final_path label (i + 1 + Z.of_nat k0)))).
    { intros p Hp (k0 & _ & Hk0).
      destruct Hp as [-> | ->], Hk0 as [Heq | Heq].
      - apply original_path_inj in Heq. lia.
      - symmetry in Heq. by apply final_path_not_original in Heq.
      - by apply final_path_not_original in Heq.
      - apply final_path_inj in Heq. lia. }
    rewrite !Hframe by (apply Hout; auto).
    split; [by eexists|]. destruct save_original; [by exists b | done].
  - cbn in Hk. replace (i + Z.of_nat (S k)) with (i + 1 + Z.of_nat k) by lia.
    exact (IH (i + 1) w3 w' Hrun k entry Hk).
Qed.

(** After a pass of [create_movie_poster] that returned, every entry of the
    list has its final PNG in place; its download is still there when the
    originals are kept, and is gone when they are not. *)
Theorem create_movie_poster_leaves_outputs (movie_title label : string)
    (save_original : bool) (images : list image_entry) (w w' : world) :
  create_movie_poster movie_title images label save_original w = (Ok tt, w') ->
  forall (k : nat) entry, images !! k = Some entry ->
    (exists png, fs w' !! final_path label (Z.of_nat k) = Some png)
    /\ (if save_original
        then exists b,
               fs w' !! original_path save_original label (Z.of_nat k) = Some b
        else fs w' !! original_path save_original label (Z.of_nat k) = None).
Proof.
  intros Hrun k entry Hk.
  exact (create_movie_poster_from_post movie_title label save_original images
           0 w w' Hrun k entry Hk).
Qed.


End LoopFacts.

Lemma failed_download_aborts_pass_witness :
  exists e w',
    @create_movie_poster toy_backend toy_remote "The Substance"
      [ImageEntry "/gone.jpg"; ImageEntry "/p1.jpg"] "poster" false toy_world
    = (Raise e, w')
    /\ log w' = [EDownload "/gone.jpg" "posters/temp_poster_1.jpg";
                 EOpen "posters/temp_poster_1.jpg"].
Proof.
  eexists _, _. split.
  - exact (@failed_download_aborts_pass toy_backend toy_remote 0 "The Substance"
             "poster" false (ImageEntry "/gone.jpg") [ImageEntry "/p1.jpg"]
             toy_world ltac:(reflexivity) ltac:(vm_compute; reflexivity)).
  - vm_compute. reflexivity.
Defined.

Lemma create_movie_poster_leaves_outputs_witness :
  exists w' png,
    @create_movie_poster toy_backend toy_remote "The Substance"
      [ImageEntry "/p1.jpg"] "poster" false toy_world = (Ok tt, w')
    /\ fs w' !! "posters/final_movie_poster_1.png" = Some png
    /\ fs w' !! "posters/temp_poster_1.jpg" = None.
Proof.
  destruct (@create_movie_poster toy_backend toy_remote "The Substance"
              [ImageEntry "/p1.jpg"] "poster" false toy_world)
    as [[[]|e] w'] eqn:Hrun; [|vm_compute in Hrun; discriminate].
  destruct (@create_movie_poster_leaves_outputs toy_backend toy_remote
              "The Substance" "poster" false [ImageEntry "/p1.jpg"] toy_world w'
              Hrun 0%nat (ImageEntry "/p1.jpg") eq_refl) as ((png & Hpng) & Hgone).
  exists w', png. split; [reflexivity|]. split; [exact Hpng | exact Hgone].
Defined.


(** ** The title on the finished poster *)

Section TitleFacts.
Context `{Backend}.

(** On every poster that [compose_poster] returns, the title is set in the
    first font at a size between 10 and 244, the largest at which its
    measured right edge is within 2200 pixels, or at size 10 if there is
    none; and it is drawn at x = center_position of the 2400 pixel width and
    y = 2205. *)
Theorem title_fits_or_floor (title_text pp bp : string) (w w' : world)
    (drawn : image) :
  compose_poster title_text pp bp w = (Ok drawn, w') ->
  exists final lay title_font gloock_font charmonman_font small_font,
    drawn = draw_labels final title_text lay title_font gloock_font
              charmonman_font small_font
    /\ font_path title_font = gloock_path
    /\ 10 <= font_size title_font <= 244
    /\ (bb_right (textbbox0 title_font title_text) <= 2200
        \/ font_size title_font = 10)
    /\ (forall t, font_size title_font < t <= 244 ->
          bb_right (textbbox0 (Font gloock_path (font_data title_font) t)
                      title_text) > 2200)
    /\ title_position lay =
         (Int (center_position 2400 (textbbox0 title_font title_text)), Int 2205).
Proof.
  intros Hrun. apply compose_poster_inv in Hrun
    as (poster & blur_file & blur_resized & final & title_font & gloock_font
        & charmonman_font & small_font & lay & w1 & w2 & w3
        & Hposter & Hblur & Hres & Hfinal & Hfont & (d1 & Hd1 & Hv1) & _ & _ & _
        & _ & Hlay & Hdrawn & _).
  destruct (smart_resize_canvas pp target_size w w1 poster Hposter)
    as (Hsize & Hmode & Hfs1).
  assert (Hfs2 : fs w2 = fs w).
  { rewrite Image_open_run in Hblur. injection Hblur as _ <-. exact Hfs1. }
  assert (Hwidth : width poster = 2400).
  { unfold im_size in Hsize. by injection Hsize. }
  rewrite Hwidth in Hfont. change (2400 - 200) with 2200 in Hfont.
  destruct (get_adaptive_font_spec title_text gloock_path 2200
              default_initial_font_size d1 w2)
    as (s & evs & Hspec & Hle & _ & Hfloor & Habove & Hfit);
    [by rewrite Hfs2 | exact Hv1 | done |].
  rewrite Hspec in Hfont. injection Hfont as <- _.
  unfold default_initial_font_size in *.
  assert (Hfinal_size : width final = 2400 /\ height final = 2940).
  { destruct (resize_fixed_size blur_file BICUBIC) as (r & Hr & Hrsz).
    rewrite Hres in Hr. injection Hr as <-.
    assert (Hbh : height (convert_RGBA blur_resized) = 2940).
    { unfold im_size in Hrsz. by injection Hrsz. }
    destruct (apply_blur_run poster (convert_RGBA blur_resized) Hmode Hsize Hbh)
      as (_ & Hover & Happly).
    rewrite Happly, Hover in Hfinal. by injection Hfinal as <-. }
  destruct Hfinal_size as [Hfw Hfh]. rewrite Hfw, Hfh in Hlay.
  exists final, lay, (Font gloock_path d1 s), gloock_font, charmonman_font, small_font.
  split; [exact Hdrawn|]. split; [reflexivity|]. cbn [font_size font_data].
  split; [lia|]. split; [lia|]. split; [exact Habove|].
  unfold text_layout in Hlay. cbv zeta in Hlay.
  apply rbind_Ok in Hlay as (shift & _ & Hlay).
  apply rbind_Ok in Hlay as (room_x & _ & Hlay).
  injection Hlay as <-. reflexivity.
Qed.

End TitleFacts.

Lemma title_fits_or_floor_witness :
  exists drawn w' title_font,
    @compose_poster toy_backend "The Substance" "poster.jpg" "Blur.png" toy_world
    = (Ok drawn, w')
    /\ 10 <= font_size title_font <= 244
    /\ (bb_right (toy_textbbox0 title_font "The Substance") <= 2200
        \/ font_size title_font = 10).
Proof.
  destruct (@compose_poster toy_backend "The Substance" "poster.jpg" "Blur.png"
              toy_world) as [[drawn|e] w'] eqn:Hrun;
    [|vm_compute in Hrun; discriminate].
  destruct (@title_fits_or_floor toy_backend "The Substance" "poster.jpg"
              "Blur.png" toy_world w' drawn Hrun)
    as (_ & _ & title_font & _ & _ & _ & _ & _ & Hsize & Hfit & _).
  exists drawn, w', title_font. split; [reflexivity|]. split; [exact Hsize | exact Hfit].
Defined.

(** ** The two passes of a run *)

Lemma final_path_label (i j : Z) :
  final_path "poster" i <> final_path "backdrop" j.
Proof.
  unfold final_path. intros Heq. apply (inj (String.app _)) in Heq.
  rewrite !string_app_cons in Heq. discriminate Heq.
Qed.

Lemma fixed_inputs_not_managed (k : string) :
  k = "Blur.png" \/ k = gloock_path \/ k = charmonman_path -> ~ managed k.
Proof.
  intros [-> | [-> | ->]] [Hm | Hm]; vm_compute in Hm; discriminate Hm.
Qed.

Section BackdropCopies.
Context `{Backend} `{Remote}.

Lemma smart_resize_same_bytes (pp pp2 : string) (target : Z * Z)
    (w w1 w2 : world) (canvas : image) :
  smart_resize pp target w = (Ok canvas, w1) ->
  fs w2 !! pp2 = fs w !! pp ->
  smart_resize pp2 target w2 =
    (Ok canvas, World (fs w2) (log w2 ++ [EOpen pp2])).
Proof.
  intros Hrun Heq. unfold smart_resize, bind, lift, ret in *.
  rewrite Image_open_run in Hrun. rewrite Image_open_run, Heq.
  destruct (fs w !! pp) as [b|]; [|discriminate].
  destruct (decode_image b) as [src|]; cbn [of_option] in *; [|discriminate].
  cbv zeta in *.
  destruct (cover_scale _ _ target) as [scale|]; [|discriminate].
  destruct (cover_size _ _ scale) as [new_size|]; [|discriminate].
  destruct (resize _ new_size LANCZOS) as [resized|]; [|discriminate].
  destruct (Image_new target transparent) as [c|]; [|discriminate].
  injection Hrun as <- _. reflexivity.
Qed.

(** The drawn canvas depends on the path of the source only through the
    bytes found there. *)
Lemma compose_poster_same_bytes (title_text pp pp2 bp : string)
    (w w' w2 : world) (drawn : image) :
  compose_poster title_text pp bp w = (Ok drawn, w') ->
  fs w2 !! pp2 = fs w !! pp ->
  (forall k, k = bp \/ k = gloock_path \/ k = charmonman_path ->
     fs w2 !! k = fs w !! k) ->
  exists w2', compose_poster title_text pp2 bp w2 = (Ok drawn, w2').
Proof.
  intros Hrun Hpp Hrest. unfold compose_poster in *.
  match type of Hrun with bind _ ?k _ = _ => set (rest := k) in * end.
  assert (Hreads : forall poster,
            reads (fun k => k = bp \/ k = gloock_path \/ k = charmonman_path)
              is_read (rest poster)).
  { intros poster. subst rest. cbv beta.
    apply reads_bind; [apply reads_Image_open; [tauto|exact I]|]. intros blur_file.
    apply reads_bind; [apply reads_lift|]. intros blur_resized. cbv zeta.
    apply reads_bind; [apply reads_lift|]. intros final_poster.
    apply reads_bind; [apply reads_get_adaptive_font; [tauto|intros; exact I]|].
    intros title_font.
    apply reads_bind; [apply reads_truetype; [tauto|exact I]|]. intros gloock_font.
    apply reads_bind; [apply reads_truetype; [tauto|exact I]|]. intros charmonman_font.
    apply reads_bind; [apply reads_truetype; [tauto|exact I]|]. intros small_font.
    apply reads_bind; [apply reads_lift|]. intros lay.
    apply reads_ret. }
  unfold bind in Hrun |- *.
  destruct (smart_resize pp target_size w) as [[poster|e] w1] eqn:Hsr; [|discriminate].
  rewrite (smart_resize_same_bytes pp pp2 target_size w w1 w2 poster Hsr Hpp).
  destruct (smart_resize_canvas pp target_size w w1 poster Hsr) as (_ & _ & Hfs1).
  destruct (Hreads poster w1) as (r & evs & Hr & _ & Hdep).
  rewrite Hr in Hrun. injection Hrun as -> _.
  rewrite (Hdep (World (fs w2) (log w2 ++ [EOpen pp2]))); [by eexists|].
  intros k Hk. cbn [fs]. rewrite Hfs1. by apply Hrest.
Qed.

Lemma touches_create_movie_poster (movie_title label : string)
    (save_original : bool) (images : list image_entry) :
  touches managed (create_movie_poster movie_title images label save_original).
Proof.
  unfold create_movie_poster.
  eapply touches_mono; [|apply touches_create_movie_poster_from].
  intros p (k & _ & [-> | ->]);
    [apply original_path_managed | apply final_path_managed].
Qed.

(** What a pass that returned has left at the final path of an entry whose
    download succeeded: the canvas drawn from the downloaded bytes, the blur
    image and the fonts, whatever the entries before it did. *)
Lemma create_movie_poster_from_renders (movie_title label : string)
    (save_original : bool) (images : list image_entry) :
  forall i w w',
    create_movie_poster_from i movie_title images label save_original w
      = (Ok tt, w') ->
    forall base : gmap string bytes,
      (forall p, ~ managed p -> base !! p = fs w !! p) ->
      forall (k : nat) entry content,
        images !! k = Some entry ->
        tmdb_original (file_path entry) = Some content ->
        exists drawn wb,
          compose_poster movie_title
            (original_path save_original label (i + Z.of_nat k)) "Blur.png"
            (World (<[original_path save_original label (i + Z.of_nat k) := content]>
                      base) [])
          = (Ok drawn, wb)
          /\ fs w' !! final_path label (i + Z.of_nat k) = Some (encode_png drawn).
Proof.
  induction images as [|image rest IH];
    intros i w w' Hrun base Hbase k entry content Hk Hnet;
    [by rewrite lookup_nil in Hk|].
  cbn [create_movie_poster_from] in Hrun. cbv zeta in Hrun.
  set (orig := original_path save_original label i) in *.
  set (final := final_path label i) in *.
  unfold bind at 1 in Hrun. rewrite download_image_run in Hrun.
  set (w1 := World _ (log w ++ [EDownload (file_path image) orig])) in Hrun.
  unfold bind at 1 in Hrun.
  destruct (create_image_poster movie_title orig final "Blur.png" w1)
    as [[[]|e] w2] eqn:Hposter; [|discriminate].
  unfold bind at 1 in Hrun.
  set (cleanup := if save_original then ret tt else os_remove orig) in Hrun.
  destruct (cleanup w2) as [[[]|e] w3] eqn:Hclean; [|discriminate].
  assert (Hne : final <> orig) by apply final_path_not_original.
  assert (Horig_m : managed orig) by apply original_path_managed.
  assert (Hfinal_m : managed final) by apply final_path_managed.
  assert (H1 : forall p, p <> orig -> fs w1 !! p = fs w !! p).
  { intros p Hp. subst w1. cbn [fs].
    destruct (tmdb_original (file_path image)); [|reflexivity].
    by rewrite lookup_insert_ne. }
  assert (H2 : forall p, p <> final -> fs w2 !! p = fs w1 !! p).
  { intros p Hp.
    pose proof (touches_create_image_poster movie_title orig final "Blur.png"
                  w1 p Hp) as Ht. by rewrite Hposter in Ht. }
  assert (H3 : forall p, p <> orig -> fs w3 !! p = fs w2 !! p).
  { intros p Hp. subst cleanup. destruct save_original.
    - by injection Hclean as <-.
    - pose proof (touches_os_remove orig w2 p Hp) as Ht. by rewrite Hclean in Ht. }
  destruct k as [|k].
  - cbn in Hk. injection Hk as ->.
    replace (i + Z.of_nat 0) with i by lia. fold orig final.
    destruct (create_image_poster_outcome movie_title orig final "Blur.png" w1)
      as (r & evs & Hc & _ & Hout & Hdep).
    rewrite Hout in Hposter. destruct r as [drawn|e]; [|discriminate].
    injection Hposter as <-.
    exists drawn. eexists. split.
    + apply Hdep. intros p Hp. cbn [fs]. subst w1. cbn [fs]. rewrite Hnet.
      destruct (decide (p = orig)) as [-> | Hpo];
        [by rewrite !lookup_insert_eq|].
      rewrite !lookup_insert_ne by done. apply Hbase.
      destruct Hp as [-> | Hp]; [done|]. by apply fixed_inputs_not_managed.
    + pose proof (touches_create_movie_poster_from movie_title label save_original
                    rest (i + 1) w3 final) as Hframe.
      rewrite Hrun in Hframe. cbn [snd] in Hframe.
      rewrite Hframe.
      * rewrite H3 by done. cbn [fs]. apply lookup_insert_eq.
      * intros (k0 & _ & [Heq | Heq]).
        -- by apply final_path_not_original in Heq.
        -- apply final_path_inj in Heq. lia.
  - cbn in Hk. replace (i + Z.of_nat (S k)) with (i + 1 + Z.of_nat k) by lia.
    refine (IH (i + 1) w3 w' Hrun base _ k entry content Hk Hnet).
    intros p Hp. rewrite Hbase by done.
    rewrite H3, H2, H1; [reflexivity | | |]; intros ->; by apply Hp.
Qed.

(** Line 106 hands the poster list to the backdrop pass: in a run that
    returned with backdrops listed, every poster entry whose download
    succeeded has the same bytes under its poster name and under the
    backdrop name of the same index, the encoding of the canvas drawn from
    its download with the blur image and the fonts the run started with. *)
Theorem backdrop_outputs_copy_posters (movie_title : string) (movie_id : Z)
    (save_original : bool) (poster_languages : option (list string))
    (w w' : world) (movie_images : gmap string (list image_entry)) :
  generate_movie_posters movie_title movie_id save_original poster_languages w
    = (Ok tt, w') ->
  tmdb_images movie_id poster_languages = Some movie_images ->
  nonempty (default [] (movie_images !! "backdrops")) = true ->
  forall (k : nat) entry content,
    default [] (movie_images !! "posters") !! k = Some entry ->
    tmdb_original (file_path entry) = Some content ->
    exists drawn wb,
      compose_poster movie_title
        (original_path save_original "poster" (Z.of_nat k)) "Blur.png"
        (World (<[original_path save_original "poster" (Z.of_nat k) := content]>
                  (fs w)) [])
      = (Ok drawn, wb)
      /\ fs w' !! final_path "poster" (Z.of_nat k) = Some (encode_png drawn)
      /\ fs w' !! final_path "backdrop" (Z.of_nat k) = Some (encode_png drawn).
Proof.
  intros Hrun Himgs Hback k entry content Hk Hnet.
  unfold generate_movie_posters, fetch_movie_images in Hrun.
  cbn [ensure_directories_exist] in Hrun.
  unfold bind, emit, ret in Hrun. cbn [fs log] in Hrun.
  rewrite Himgs in Hrun.
  destruct (bool_decide (movie_images = ∅)) eqn:Hempty.
  { apply bool_decide_eq_true in Hempty. subst movie_images.
    by rewrite lookup_empty in Hk. }
  set (posters := default [] (movie_images !! "posters")) in *.
  assert (Hposters : nonempty posters = true).
  { destruct posters; [by rewrite lookup_nil in Hk | reflexivity]. }
  rewrite Hposters, Hback in Hrun.
  set (w0 := World (fs w) _) in Hrun.
  destruct (create_movie_poster movie_title posters "poster" save_original w0)
    as [[[]|e] w1] eqn:Hpass1; [|discriminate].
  unfold create_movie_poster in Hpass1, Hrun.
  destruct (create_movie_poster_from_renders movie_title "poster" save_original
              posters 0 w0 w1 Hpass1 (fs w) ltac:(reflexivity) k entry content
              Hk Hnet) as (drawn & wb & Hdrawn & Hfinal1).
  destruct (create_movie_poster_from_renders movie_title "backdrop" save_original
              posters 0 w1 w' Hrun (fs w1) ltac:(reflexivity) k entry content
              Hk Hnet) as (drawn2 & wb2 & Hdrawn2 & Hfinal2).
  rewrite Z.add_0_l in *.
  set (op := original_path save_original "poster" (Z.of_nat k)) in *.
  set (ob := original_path save_original "backdrop" (Z.of_nat k)) in *.
  assert (Hsame : drawn2 = drawn).
  { destruct (compose_poster_same_bytes movie_title op ob "Blur.png"
                (World (<[op := content]> (fs w)) []) wb
                (World (<[ob := content]> (fs w1)) []) drawn Hdrawn)
      as (wb3 & Hdrawn3).
    - cbn [fs]. by rewrite !lookup_insert_eq.
    - intros p Hp. apply fixed_inputs_not_managed in Hp. cbn [fs].
      rewrite !lookup_insert_ne
        by (intros <-; apply Hp; apply original_path_managed).
      pose proof (touches_create_movie_poster_from movie_title "poster"
                    save_original posters 0 w0 p) as Hframe.
      rewrite Hpass1 in Hframe. cbn [snd] in Hframe. apply Hframe.
      intros (k0 & _ & [-> | ->]); apply Hp;
        [apply original_path_managed | apply final_path_managed].
    - rewrite Hdrawn3 in Hdrawn2. by injection Hdrawn2 as <-. }
  subst drawn2. exists drawn, wb. split; [exact Hdrawn|]. split; [|exact Hfinal2].
  pose proof (touches_create_movie_poster_from movie_title "backdrop"
                save_original posters 0 w1 (final_path "poster" (Z.of_nat k)))
    as Hframe.
  rewrite Hrun in Hframe. cbn [snd] in Hframe. rewrite Hframe; [exact Hfinal1|].
  intros (k0 & _ & [Heq | Heq]).
  - by apply final_path_not_original in Heq.
  - by apply final_path_label in Heq.
Qed.

End BackdropCopies.

Lemma backdrop_outputs_copy_posters_witness :
  exists w' png,
    @generate_movie_posters toy_backend toy_remote "The Substance" 933260 false
      None toy_world = (Ok tt, w')
    /\ fs w' !! "posters/final_movie_poster_1.png" = Some png
    /\ fs w' !! "posters/final_movie_backdrop_1.png" = Some png.
Proof.
  destruct (@generate_movie_posters toy_backend toy_remote "The Substance"
              933260 false None toy_world) as [[[]|e] w'] eqn:Hrun;
    [|vm_compute in Hrun; discriminate].
  destruct (@backdrop_outputs_copy_posters toy_backend toy_remote
              "The Substance" 933260 false None toy_world w' _ Hrun eq_refl
              ltac:(vm_compute; reflexivity) 0%nat (ImageEntry "/p1.jpg")
              [1000; 2000] ltac:(vm_compute; reflexivity) eq_refl)
    as (drawn & _ & _ & Hp & Hb).
  exists w', (@encode_png toy_backend drawn).
  split; [reflexivity|]. split; [exact Hp | exact Hb].
Defined.

(** ** The side labels *)

Lemma float_eqb_eq (x y : PyFloat.float) : float_eqb x y = true -> x = y.
Proof.
  destruct x as [s| s| |s m e], y as [s'| s'| |s' m' e']; cbn; try discriminate.
  - intros Hs. apply Bool.eqb_prop in Hs. by subst.
  - intros Hs. apply Bool.eqb_prop in Hs. by subst.
  - reflexivity.
  - intros Hall. apply andb_prop in Hall as [Hall He].
    apply andb_prop in Hall as [Hs Hm].
    apply Bool.eqb_prop in Hs. apply Pos.eqb_eq in Hm. apply Z.eqb_eq in He.
    by subst.
Qed.

Lemma of_int_checked_Some (n : Z) (x : PyFloat.float) :
  PyFloat.of_int_checked n = Some x -> x = PyFloat.of_int n.
Proof.
  unfold PyFloat.of_int_checked.
  destruct (PyFloat.of_int n); intros Heq; by inversion Heq.
Qed.

Lemma floordiv_1_3_upto_5000 :
  forallb (fun w => match int_floordiv_float w PyFloat.lit_1_3 with
                    | Ok f => float_eqb f (PyFloat.of_int (floor_13_tenths w))
                    | Raise _ => false
                    end)
    (seqZ 0 5001) = true.
Proof. vm_compute; reflexivity. Qed.

Lemma floordiv_1_3_value (w : Z) :
  0 <= w <= 5000 ->
  int_floordiv_float w PyFloat.lit_1_3 = Ok (PyFloat.of_int (floor_13_tenths w)).
Proof.
  intros Hw. pose proof floordiv_1_3_upto_5000 as Hall.
  rewrite forallb_forall in Hall. specialize (Hall w).
  destruct (int_floordiv_float w PyFloat.lit_1_3) as [f|e].
  - f_equal. apply float_eqb_eq, Hall, list_elem_of_In, elem_of_seqZ. lia.
  - exfalso. enough (false = true) by discriminate.
    apply Hall, list_elem_of_In, elem_of_seqZ. lia.
Qed.

(** The room label and the day label share one y.  The day label is placed
    with integer arithmetic, a third of the brand mark's width to the left;
    the x of the room label is a float, because [// 1.3] yields one: it is
    the integer part plus the float floor of width / 1.3, and for a width
    that is a positive multiple of 13 that floor is one less than the exact
    quotient, since the double 1.3 lies above thirteen tenths. *)
Theorem side_labels_layout (W Ht : Z)
    (title_bbox cine_bbox fil_bbox room_bbox day_bbox : bbox) (lay : layout) :
  let cinefil_width :=
    (bb_right cine_bbox - bb_left cine_bbox)
    + (bb_right fil_bbox - bb_left fil_bbox) in
  let cinefil_height :=
    (bb_bottom cine_bbox - bb_top cine_bbox)
    + (bb_bottom fil_bbox - bb_top fil_bbox) in
  let cine_x := center_position W (add_bboxes cine_bbox fil_bbox) in
  let y := Ht - 450 + (bb_bottom cine_bbox - bb_top cine_bbox) `div` 4
           + cinefil_height `div` 4 in
  text_layout W Ht title_bbox cine_bbox fil_bbox room_bbox day_bbox = Ok lay ->
  0 <= cinefil_width <= 5000 ->
  room_position lay =
    (Float (PyFloat.add (PyFloat.of_int (cine_x + bb_right room_bbox))
              (PyFloat.of_int (floor_13_tenths cinefil_width))),
     Int y)
  /\ day_position lay =
       (Int (cine_x - bb_right day_bbox - cinefil_width `div` 3), Int y)
  /\ (0 < cinefil_width -> cinefil_width `mod` 13 = 0 ->
      floor_13_tenths cinefil_width = 10 * (cinefil_width `div` 13) - 1).
Proof.
  intros cinefil_width cinefil_height cine_x y Hlay Hw.
  unfold text_layout in Hlay. cbv zeta in Hlay.
  apply rbind_Ok in Hlay as (shift & Hshift & Hlay).
  apply rbind_Ok in Hlay as (room_x & Hroom & Hlay).
  injection Hlay as <-. cbn [room_position day_position].
  fold cinefil_width in Hshift. rewrite (floordiv_1_3_value _ Hw) in Hshift.
  injection Hshift as <-.
  unfold int_add_float in Hroom. apply rbind_Ok in Hroom as (fn & Hfn & Hroom).
  injection Hroom as <-.
  destruct (PyFloat.of_int_checked _) as [x|] eqn:Hx; [|discriminate].
  cbn in Hfn. injection Hfn as <-. apply of_int_checked_Some in Hx. subst x.
  split; [reflexivity|]. split; [reflexivity|].
  intros Hpos Hmod. unfold floor_13_tenths.
  destruct (Z.ltb_spec 0 cinefil_width); [|lia].
  rewrite Hmod. cbn [Z.eqb andb].
  pose proof (Z.div_mod cinefil_width 13 ltac:(lia)) as Hdm.
  rewrite Hmod, Z.add_0_r in Hdm.
  rewrite Hdm at 1. rewrite Z.mul_assoc, (Z.mul_comm 10 13), <- Z.mul_assoc.
  rewrite Z.mul_comm, Z.div_mul by lia. lia.
Qed.

Lemma side_labels_layout_witness :
  exists lay,
    text_layout 2400 2940 (BBox 0 50 900 250) (BBox 0 30 280 131)
      (BBox 0 20 149 140) (BBox 0 10 210 44) (BBox 0 10 240 44) = Ok lay
    /\ room_position lay = (Float (PyFloat.of_int 1599), Int 2570)
    /\ day_position lay = (Int 677, Int 2570).
Proof.
  destruct (text_layout 2400 2940 (BBox 0 50 900 250) (BBox 0 30 280 131)
              (BBox 0 20 149 140) (BBox 0 10 210 44) (BBox 0 10 240 44))
    as [lay|e] eqn:Hlay; [|vm_compute in Hlay; discriminate].
  destruct (side_labels_layout 2400 2940 (BBox 0 50 900 250) (BBox 0 30 280 131)
              (BBox 0 20 149 140) (BBox 0 10 210 44) (BBox 0 10 240 44) lay Hlay
              ltac:(cbn; lia)) as (Hroom & Hday & _).
  exists lay. split; [reflexivity|]. split.
  - rewrite Hroom. vm_compute. reflexivity.
  - rewrite Hday. vm_compute. reflexivity.
Defined.

(** ** The file accesses of a rendering *)

Section TraceFacts.
Context `{Backend}.

(** A successful [create_image_poster] touches the file system in one fixed
    order: it opens the poster, then the blur image, loads the first font at
    every size from 244 down to the size [s] the title gets, then the three
    label fonts at 126, 126 and 44, and saves the output last. *)
Theorem create_image_poster_trace (title_text pp out bp : string) (w w' : world) :
  create_image_poster title_text pp out bp w = (Ok tt, w') ->
  exists s,
    10 <= s <= 244
    /\ log w' =
         log w ++ [EOpen pp; EOpen bp]
           ++ map (ETruetype gloock_path) (sizes_down 244 (Z.to_nat (244 - s + 1)))
           ++ [ETruetype gloock_path 126; ETruetype charmonman_path 126;
               ETruetype gloock_path 44; ESave out].
Proof.
  intros Hrun.
  destruct (create_image_poster_outcome title_text pp out bp w)
    as (r & evs & Hc & _ & Hout & _).
  rewrite Hout in Hrun. destruct r as [drawn|e]; [|discriminate].
  injection Hrun as <-. cbn [log].
  pose proof Hc as Hinv. apply compose_poster_inv in Hinv
    as (poster & blur_file & blur_resized & final & title_font & gf & cf & sf
        & lay & w1 & w2 & w3 & Hposter & Hblur & Hres & Hfinal & Hfont
        & (d1 & Hd1 & Hv1) & (d2 & Hd2 & Hv2) & _).
  assert (Hw1 : w1 = World (fs w) (log w ++ [EOpen pp])).
  { destruct (smart_resize_log pp target_size w) as (r1 & Hr1).
    rewrite Hr1 in Hposter. by injection Hposter as _ <-. }
  assert (Hw2 : w2 = World (fs w) ((log w ++ [EOpen pp]) ++ [EOpen bp])).
  { pose proof Hblur as Hb. rewrite Image_open_run in Hb.
    injection Hb as _ <-. by subst w1. }
  destruct (get_adaptive_font_spec title_text gloock_path (width poster - 200)
              default_initial_font_size d1 w2)
    as (s & evs0 & Hspec & Hle & _ & Hfloor & _);
    [by subst w2 | exact Hv1 | done |].
  assert (Htrace : get_adaptive_font title_text gloock_path (width poster - 200)
                     default_initial_font_size w2 =
                   (Ok (Font gloock_path d1 s),
                    World (fs w)
                      (log w2 ++ map (ETruetype gloock_path)
                         (sizes_down 244 (Z.to_nat (244 - s + 1)))))).
  { unfold get_adaptive_font, bind in Hspec |- *. cbv zeta in Hspec |- *.
    unfold default_initial_font_size in *.
    rewrite (truetype_valid gloock_path 244 d1 w2) in Hspec |- *;
      [|by subst w2|exact Hv1|lia|by subst w2|exact Hv1|lia].
    destruct (shrink_font_trace title_text gloock_path (width poster - 200) d1
                Hv1 (Z.to_nat (244 - 10)) 244
                (World (fs w2) (log w2 ++ [ETruetype gloock_path 244])))
      as (s' & _ & Hshrink); [lia | lia | by subst w2 |].
    cbn [fs log] in Hshrink. rewrite Hshrink in Hspec |- *.
    injection Hspec as -> _.
    replace (Z.to_nat (244 - s + 1)) with (S (Z.to_nat (244 - s))) by lia.
    cbn [sizes_down map]. rewrite <- app_assoc. subst w2. reflexivity. }
  unfold default_initial_font_size in Hle, Hfloor.
  exists s. split; [lia|].
  unfold compose_poster, bind, lift, ret in Hc. cbv zeta in Hc.
  rewrite Hposter, Hblur, Hres, Hfinal, Htrace in Hc.
  rewrite (truetype_valid gloock_path 126 d1) in Hc by (done || lia).
  rewrite (truetype_valid charmonman_path 126 d2) in Hc by (done || lia).
  rewrite (truetype_valid gloock_path 44 d1) in Hc by (done || lia).
  cbn [fs log] in Hc.
  assert (Hlog : log w ++ evs =
            ((((log w2 ++ map (ETruetype gloock_path)
                             (sizes_down 244 (Z.to_nat (244 - s + 1))))
               ++ [ETruetype gloock_path 126])
              ++ [ETruetype charmonman_path 126])
             ++ [ETruetype gloock_path 44])).
  { destruct (text_layout _ _ _ _ _ _ _); by injection Hc as _ <-. }
  subst w2. cbn [log] in Hlog. rewrite <- !app_assoc in Hlog.
  apply app_inv_head in Hlog. rewrite Hlog. rewrite <- !app_assoc. reflexivity.
Qed.

End TraceFacts.

Lemma create_image_poster_trace_witness :
  exists w' s,
    @create_image_poster toy_backend "The Substance" "poster.jpg" "out.png"
      "Blur.png" toy_world = (Ok tt, w')
    /\ 10 <= s <= 244
    /\ log w' =
         [EOpen "poster.jpg"; EOpen "Blur.png"]
           ++ map (ETruetype gloock_path) (sizes_down 244 (Z.to_nat (244 - s + 1)))
           ++ [ETruetype gloock_path 126; ETruetype charmonman_path 126;
               ETruetype gloock_path 44; ESave "out.png"].
Proof.
  destruct (@create_image_poster toy_backend "The Substance" "poster.jpg"
              "out.png" "Blur.png" toy_world) as [[[]|e] w'] eqn:Hrun;
    [|vm_compute in Hrun; discriminate].
  destruct (@create_image_poster_trace toy_backend "The Substance" "poster.jpg"
              "out.png" "Blur.png" toy_world w' Hrun) as (s & Hs & Hlog).
  exists w', s. split; [reflexivity|]. split; [exact Hs | exact Hlog].
Defined.

(** ** The temporary file *)

Section TemporaryFile.
Context `{Backend}.

(** Lines 52-61: when the rendering of an entry has returned, its temporary
    download is still at its path, with the bytes that were rendered, and the
    PNG was written to another path.  So the [os.remove] that follows does
    not fail for a missing file; and once it has returned the temporary file
    is gone and the PNG is still there. *)
Theorem temp_file_present_at_removal (movie_title label : string) (i : Z)
    (w w2 : world) :
  let orig := original_path false label i in
  let final := final_path label i in
  create_image_poster movie_title orig final "Blur.png" w = (Ok tt, w2) ->
  exists b png,
    fs w !! orig = Some b
    /\ fs w2 !! orig = Some b
    /\ fs w2 !! final = Some png
    /\ (forall w3, os_remove orig w2 <> (Raise (FileNotFoundError orig), w3))
    /\ (forall w3, os_remove orig w2 = (Ok tt, w3) ->
          fs w3 !! orig = None /\ fs w3 !! final = Some png).
Proof.
  intros orig final Hposter.
  destruct (create_image_poster_Ok_fs movie_title orig final "Blur.png" w w2
              Hposter) as (b & drawn & Horig & Hfs2).
  assert (Hne : final <> orig) by apply final_path_not_original.
  assert (Horig2 : fs w2 !! orig = Some b).
  { rewrite Hfs2, lookup_insert_ne; [exact Horig | exact Hne]. }
  assert (Hfinal2 : fs w2 !! final = Some (encode_png drawn)).
  { rewrite Hfs2. apply lookup_insert_eq. }
  assert (Hremove : os_remove orig w2 =
            (Ok tt, World (delete orig (fs w2)) (log w2 ++ [ERemove orig]))).
  { unfold os_remove, bind, emit. cbn [fs log]. by rewrite Horig2. }
  exists b, (encode_png drawn).
  split; [exact Horig|]. split; [exact Horig2|]. split; [exact Hfinal2|]. split.
  - intros w3 Hraise. rewrite Hremove in Hraise. discriminate.
  - intros w3 Hok. rewrite Hremove in Hok. injection Hok as <-. cbn [fs]. split.
    + apply lookup_delete_eq.
    + rewrite lookup_delete_ne; [exact Hfinal2 | congruence].
Qed.

End TemporaryFile.

Lemma temp_file_present_at_removal_witness :
  exists w2 b,
    @create_image_poster toy_backend "The Substance" "posters/temp_poster_1.jpg"
      "posters/final_movie_poster_1.png" "Blur.png"
      (World (<["posters/temp_poster_1.jpg" := [1000; 2000]]> toy_fs) [])
    = (Ok tt, w2)
    /\ fs w2 !! "posters/temp_poster_1.jpg" = Some b.
Proof.
  destruct (@create_image_poster toy_backend "The Substance"
              "posters/temp_poster_1.jpg" "posters/final_movie_poster_1.png"
              "Blur.png"
              (World (<["posters/temp_poster_1.jpg" := [1000; 2000]]> toy_fs) []))
    as [[[]|e] w2] eqn:Hrun; [|vm_compute in Hrun; discriminate].
  destruct (@temp_file_present_at_removal toy_backend "The Substance" "poster" 0
              (World (<["posters/temp_poster_1.jpg" := [1000; 2000]]> toy_fs) [])
              w2 Hrun) as (b & _ & _ & Hb & _).
  exists w2, b. split; [reflexivity | exact Hb].
Defined.
